(** * Alert-System: the anomaly estimators and the alert dispatcher

    A shallow embedding of [alert_system.py].

    Numbers.  The metric columns hold floating-point numbers.  A finite
    number is modelled as an exact rational ([Q]) and NaN as [None]; the
    rounding of floating-point arithmetic and the infinities are outside
    the model.  Comparisons with NaN are false, as in Python.  A column of
    integers enters as the float64 values pandas converts it to; where a
    statement depends on a value being read without rounding, it says so
    with [float64_exact].

    Frames.  A pandas DataFrame is an index length and a map from column
    names to columns.  DataFrames are objects: the estimators receive a
    reference into a store of frames and assign columns in place. *)

From Stdlib Require Import QArith Qround Qabs Lqa Ascii String Sorted.
From stdpp Require Import base option list gmap strings pretty.

Local Open Scope Q_scope.

(** ** Cells and series *)

(** One cell of a numeric column: a number, or NaN. *)
Abbreviation cell := (option Q).

Abbreviation series := (list cell).

Definition NaN : cell := None.

(** [x < y] on numpy scalars: false as soon as one side is NaN.  The
    comparison is the one of the numbers: it is the one of the code for
    values a float64 holds exactly (an int64 beyond 2^53 is rounded
    before it is compared). *)
Definition cell_ltb (x y : cell) : bool :=
  match x, y with
  | Some p, Some q => if Qlt_le_dec p q then true else false
  | _, _ => false
  end.

(** [x > y] is [y < x]. *)
Definition cell_gtb (x y : cell) : bool := cell_ltb y x.

(** Binary arithmetic on cells: NaN propagates. *)
Definition cell_op (f : Q -> Q -> Q) (x y : cell) : cell :=
  match x, y with
  | Some p, Some q => Some (f p q)
  | _, _ => None
  end.

(** [s1 - s2] and [s1 + s2] on two series over the same index. *)
Definition series_sub (s1 s2 : series) : series := zip_with (cell_op Qminus) s1 s2.
Definition series_add (s1 s2 : series) : series := zip_with (cell_op Qplus) s1 s2.

(** [a * s] for a scalar [a]. *)
Definition series_scale (a : Q) (s : series) : series :=
  (fun c : cell => match c with Some q => Some (a * q) | None => None end) <$> s.

(** [s.shift(1)]: every value moves one position down, the first position
    becomes NaN, the last value is dropped. *)
Definition shift1 (s : series) : series :=
  match s with
  | [] => []
  | _ => NaN :: take (length s - 1) s
  end.

(** ** Rolling windows *)

(** The bounds of the fixed window of position [i], as pandas's
    [FixedWindowIndexer] computes them:
    [offset = (window - 1) // 2] when centred, 0 otherwise;
    [end = i + 1 + offset], [start = end - window], both clipped to
    [0 .. num_values]. *)
Definition clip (lo hi x : Z) : Z := Z.max lo (Z.min hi x).

Definition window_offset (window : nat) (center : bool) : Z :=
  if center then ((Z.of_nat window - 1) / 2)%Z else 0%Z.

Definition window_end (num_values window : nat) (center : bool) (i : nat) : Z :=
  clip 0 (Z.of_nat num_values) (Z.of_nat i + 1 + window_offset window center)%Z.

Definition window_start (num_values window : nat) (center : bool) (i : nat) : Z :=
  clip 0 (Z.of_nat num_values)
       (Z.of_nat i + 1 + window_offset window center - Z.of_nat window)%Z.

(** The cells of the window of position [i]: positions [start .. end - 1]. *)
Definition window_at (window : nat) (center : bool) (s : series) (i : nat) : series :=
  let st := window_start (length s) window center i in
  let en := window_end (length s) window center i in
  take (Z.to_nat (en - st)) (drop (Z.to_nat st) s).

(** The observations of a window: its cells that are not NaN. *)
Definition observations (w : series) : list Q := omap id w.

(** [s.rolling(window, center, min_periods).agg()]: the aggregate of the
    observations of each window, NaN where the window holds fewer than
    [min_periods] observations, or none. *)
Definition rolling_apply (agg : list Q -> Q) (window : nat) (center : bool)
    (min_periods : nat) (s : series) : series :=
  (fun i =>
     let obs := observations (window_at window center s i) in
     if decide (min_periods ≤ length obs ∧ 0 < length obs)%nat
     then Some (agg obs) else NaN) <$> seq 0 (length s).

(** ** Aggregates *)

(** Insertion into an ascending list, and the sort. *)
Fixpoint insert_sorted (x : Q) (l : list Q) : list Q :=
  match l with
  | [] => [x]
  | y :: l' => if Qle_bool x y then x :: l else y :: insert_sorted x l'
  end.

Definition sort (l : list Q) : list Q := foldr insert_sorted [] l.

(** [quantile(q)] with linear interpolation over the [nobs] observations of
    a window: the rank is [q * (nobs - 1)]; an integral rank reads the
    sorted observations there, otherwise the two neighbours are
    interpolated. *)
Definition quantile (q : Q) (obs : list Q) : Q :=
  let sorted := sort obs in
  let idx_with_fraction := q * (inject_Z (Z.of_nat (length obs)) - 1) in
  let idx := Z.to_nat (Qfloor idx_with_fraction) in
  if Qeq_bool idx_with_fraction (inject_Z (Z.of_nat idx))
  then nth idx sorted 0
  else
    let vlow := nth idx sorted 0 in
    let vhigh := nth (idx + 1) sorted 0 in
    vlow + (vhigh - vlow) * (idx_with_fraction - inject_Z (Z.of_nat idx)).

(** The value of a sorted list at a real rank [h], linear between the two
    neighbours: what [quantile] amounts to on both of its branches. *)
Definition interp (s : list Q) (h : Q) : Q :=
  let k := Z.to_nat (Qfloor h) in
  nth k s 0 + (nth (k + 1) s 0 - nth k s 0) * (h - inject_Z (Z.of_nat k)).

Definition sum (l : list Q) : Q := foldr Qplus 0 l.

(** [mean()]: the sum of the observations over their number. *)
Definition mean (obs : list Q) : Q := sum obs / inject_Z (Z.of_nat (length obs)).

(** [s.rolling(n).quantile(q)]: [min_periods] defaults to the window. *)
Definition rolling_quantile (n : nat) (q : Q) (s : series) : series :=
  rolling_apply (quantile q) n false n s.

(** The values of [s.rolling(n, center=True, min_periods=1).mean()], for a
    window pandas accepts (see [rolling_mean_center]). *)
Definition centered_mean (n : nat) (s : series) : series :=
  rolling_apply mean n true 1 s.

(** ** Frames, the object store and effects *)

(** A column holds numbers, or objects (timestamps, dates, labels) that
    the code only passes on. *)
Inductive column : Type :=
  | Num (vs : series)
  | Obj (vs : list string).

Record DataFrame : Type := mkDataFrame {
  nrows : nat;
  columns : gmap string column
}.

(** The artifact handed to [bot.sendPhoto]: the saved figure. *)
Record chart : Type := mkChart {
  chart_name : string;
  chart_title : string;
  chart_x : column;
  chart_metric : series;
  chart_up : series;
  chart_low : series
}.

(** What the run does to the outside, in order. *)
Inductive event : Type :=
  | Printed (line : string)
  | SentMessage (text : string)
  | SentPhoto (photo : chart).

Inductive exn : Type :=
  | KeyError (key : string)
  | IndexError
  | TypeError
  | ValueError
  | DataError
  | RenderError
  | NetworkError.

Abbreviation ref := positive.

Record world : Type := mkWorld {
  heap : gmap ref DataFrame;
  trace : list event
}.

Inductive outcome (A : Type) : Type :=
  | Ok (a : A)
  | Raise (e : exn).
Arguments Ok {A} a.
Arguments Raise {A} e.

(** A computation runs in a world; what it did before raising stays done. *)
Definition M (A : Type) : Type := world → outcome A * world.

#[export] Instance M_ret : MRet M := λ A a w, (Ok a, w).
#[export] Instance M_bind : MBind M := λ A B f m w,
  match m w with
  | (Ok a, w') => f a w'
  | (Raise e, w') => (Raise e, w')
  end.

Definition raise {A} (e : exn) : M A := λ w, (Raise e, w).

Definition emit (ev : event) : M () :=
  λ w, (Ok (), mkWorld (heap w) (trace w ++ [ev])).

(** Dereference.  A reference the program holds is always live; a dangling
    one is reported as a [KeyError]. *)
Definition deref (r : ref) : M DataFrame :=
  λ w, match heap w !! r with
       | Some df => (Ok df, w)
       | None => (Raise (KeyError ""), w)
       end.

Definition store (r : ref) (df : DataFrame) : M () :=
  λ w, (Ok (), mkWorld (<[r := df]> (heap w)) (trace w)).

Definition alloc (df : DataFrame) : M ref :=
  λ w, let r := fresh (dom (heap w)) in
       (Ok r, mkWorld (<[r := df]> (heap w)) (trace w)).

(** [df[key]]. *)
Definition getitem (r : ref) (key : string) : M column :=
  df ← deref r;
  match columns df !! key with
  | Some c => mret c
  | None => raise (KeyError key)
  end.

(** [df[key]] where the code computes with the column; on a column of
    objects the computation raises [e]. *)
Definition getnum_or (e : exn) (r : ref) (key : string) : M series :=
  c ← getitem r key;
  match c with
  | Num vs => mret vs
  | Obj _ => raise e
  end.

(** [df[key]] where the code compares a cell of the column with a number
    or does arithmetic on it: an object there raises [TypeError]; an empty
    column has no object to refuse. *)
Definition getnum (r : ref) (key : string) : M series :=
  c ← getitem r key;
  match c with
  | Num vs => mret vs
  | Obj [] => mret []
  | Obj (_ :: _) => raise TypeError
  end.

(** [s.rolling(n, center=True, min_periods=1).mean()]: pandas refuses a
    window smaller than [min_periods], so a window of 0 raises
    [ValueError]. *)
Definition rolling_mean_center (n : nat) (s : series) : M series :=
  if decide (n = 0)%nat then raise ValueError else mret (centered_mean n s).

Definition with_column (df : DataFrame) (key : string) (c : column) : DataFrame :=
  mkDataFrame (nrows df) (<[key := c]> (columns df)).

(** [df[key] = series]: assignment in place. *)
Definition setitem (r : ref) (key : string) (vs : series) : M () :=
  df ← deref r;
  store r (with_column df key (Num vs)).

(** [df[key] = scalar]: the scalar is broadcast over the index. *)
Definition setitem_scalar (r : ref) (key : string) (v : Q) : M () :=
  df ← deref r;
  store r (with_column df key (Num (replicate (nrows df) (Some v)))).

(** [s.iloc[-k]] for [k >= 1]. *)
Definition iloc_neg (k : nat) (s : series) : M cell :=
  if decide (k ≤ length s)%nat
  then match s !! (length s - k)%nat with
       | Some c => mret c
       | None => raise IndexError
       end
  else raise IndexError.

(** [data[keys].copy()]: a new frame over the same index. *)
Fixpoint pick (cols : gmap string column) (keys : list string)
    : outcome (gmap string column) :=
  match keys with
  | [] => Ok ∅
  | k :: keys' =>
      match cols !! k with
      | None => Raise (KeyError k)
      | Some c =>
          match pick cols keys' with
          | Ok m => Ok (<[k := c]> m)
          | Raise e => Raise e
          end
      end
  end.

Definition select_copy (r : ref) (keys : list string) : M ref :=
  df ← deref r;
  match pick (columns df) keys with
  | Ok m => alloc (mkDataFrame (nrows df) m)
  | Raise e => raise e
  end.

(** ** The estimators *)

(** [check_anomaly(df, metric, a=3, n=5)].  The rolling quantile of a
    column of objects raises pandas's [DataError]. *)
Definition check_anomaly (df : ref) (metric : string) (a : Q) (n : nat) : M (Z * ref) :=
  x ← getnum_or DataError df metric;
  setitem df "q25" (rolling_quantile n (1#4) (shift1 x));;
  x ← getnum_or DataError df metric;
  setitem df "q75" (rolling_quantile n (3#4) (shift1 x));;
  q75 ← getnum df "q75";
  q25 ← getnum df "q25";
  setitem df "iqr" (series_sub q75 q25);;
  q75 ← getnum df "q75";
  iqr ← getnum df "iqr";
  setitem df "up" (series_add q75 (series_scale a iqr));;
  q25 ← getnum df "q25";
  iqr ← getnum df "iqr";
  setitem df "low" (series_sub q25 (series_scale a iqr));;
  up ← getnum df "up";
  up ← rolling_mean_center n up;
  setitem df "up" up;;
  low ← getnum df "low";
  low ← rolling_mean_center n low;
  setitem df "low" low;;
  v ← getnum df metric ≫= iloc_neg 1;
  l ← getnum df "low" ≫= iloc_neg 1;
  if cell_ltb v l then mret (1%Z, df)
  else
    v ← getnum df metric ≫= iloc_neg 1;
    u ← getnum df "up" ≫= iloc_neg 1;
    if cell_gtb v u then mret (1%Z, df) else mret (0%Z, df).

Definition default_a : Q := 3.
Definition default_n : nat := 5.

(** [check_anomaly_ctr(df, metric)]. *)
Definition check_anomaly_ctr (df : ref) (metric : string) : M (Z * ref) :=
  setitem_scalar df "up" (23#100);;
  setitem_scalar df "low" (19#100);;
  v ← getnum df metric ≫= iloc_neg 1;
  l ← getnum df "low" ≫= iloc_neg 1;
  if cell_ltb v l then mret (1%Z, df)
  else
    v ← getnum df metric ≫= iloc_neg 1;
    u ← getnum df "up" ≫= iloc_neg 1;
    if cell_gtb v u then mret (1%Z, df) else mret (0%Z, df).

(** ** The alert message *)

(** Rounding to the nearest integer, ties to even: how a float is rounded
    when it is formatted with a fixed number of decimals. *)
Definition round_half_even (x : Q) : Z :=
  let f := Qfloor x in
  match Qcompare (x - inject_Z f) (1#2) with
  | Lt => f
  | Gt => (f + 1)%Z
  | Eq => if Z.even f then f else (f + 1)%Z
  end.

Definition two_digits (n : Z) : string :=
  if (n <? 10)%Z then "0" +:+ pretty n else pretty n.

(** [f"{x:.2f}"] for a finite [x]. *)
Definition format_2f (x : Q) : string :=
  let c := round_half_even (Qabs x * 100) in
  (if Qlt_le_dec x 0 then "-" else "")
    +:+ pretty (c / 100)%Z +:+ "." +:+ two_digits (c mod 100)%Z.

Definition format_cell_2f (c : cell) : string :=
  match c with
  | Some x => format_2f x
  | None => "nan"
  end.

(** The value of [1 - current/previous]: numpy scalars do not raise on a
    zero divisor, the quotient is infinite or NaN. *)
Inductive fval : Type :=
  | Fin (q : Q)
  | PosInf
  | NegInf
  | FNaN.

Definition cell_div (x y : cell) : fval :=
  match x, y with
  | Some p, Some q =>
      if Qeq_bool q 0
      then (if Qeq_bool p 0 then FNaN
            else if Qlt_le_dec p 0 then NegInf else PosInf)
      else Fin (p / q)
  | _, _ => FNaN
  end.

Definition one_minus (v : fval) : fval :=
  match v with
  | Fin q => Fin (1 - q)
  | PosInf => NegInf
  | NegInf => PosInf
  | FNaN => FNaN
  end.

(** [1 - df[metric].iloc[-1] / df[metric].iloc[-2]]. *)
Definition percent_change (current previous : cell) : fval :=
  one_minus (cell_div current previous).

(** [f"{v:.2%}"]: the value times 100, two decimals, a percent sign.  The
    digits are those of the exact value; the float the code formats can
    fall on the other side of a rounding tie. *)
Definition format_2pct (v : fval) : string :=
  match v with
  | Fin q => format_2f (q * 100) +:+ "%"
  | PosInf => "inf%"
  | NegInf => "-inf%"
  | FNaN => "nan%"
  end.

Definition is_lower (c : ascii) : bool :=
  (97 <=? nat_of_ascii c)%nat && (nat_of_ascii c <=? 122)%nat.
Definition is_upper (c : ascii) : bool :=
  (65 <=? nat_of_ascii c)%nat && (nat_of_ascii c <=? 90)%nat.
Definition upper (c : ascii) : ascii :=
  if is_lower c then ascii_of_nat (nat_of_ascii c - 32) else c.
Definition lower (c : ascii) : ascii :=
  if is_upper c then ascii_of_nat (nat_of_ascii c + 32) else c.

Fixpoint lowercase (s : string) : string :=
  match s with
  | EmptyString => EmptyString
  | String c s' => String (lower c) (lowercase s')
  end.

(** [str.capitalize()], on the ASCII names the metrics have. *)
Definition capitalize (s : string) : string :=
  match s with
  | EmptyString => EmptyString
  | String c s' => String (upper c) (lowercase s')
  end.

Definition newline : string := String (ascii_of_nat 10) EmptyString.

(** The lines of the alert text around its two formatted numbers. *)
Definition alert_layout (metric shown change url : string) : string :=
  "Метрика " +:+ capitalize metric +:+ ":" +:+ newline
  +:+ "Текущее значение " +:+ shown +:+ newline
  +:+ "Отклонение от предыдущего значения " +:+ change +:+ newline
  +:+ "Дашборд с метриками: " +:+ url +:+ newline.

(** The f-string of the alert text. *)
Definition alert_text (metric : string) (current : cell) (change : fval)
    (url : string) : string :=
  "Метрика " +:+ capitalize metric +:+ ":" +:+ newline
  +:+ "Текущее значение " +:+ format_cell_2f current +:+ newline
  +:+ "Отклонение от предыдущего значения " +:+ format_2pct change +:+ newline
  +:+ "Дашборд с метриками: " +:+ url +:+ newline.

(** ** The dispatcher *)

(** What [get_alert] takes from outside: the dashboard link, and whether
    saving a figure or a call of the bot succeeds. *)
Record collaborators : Type := mkCollaborators {
  url : string;
  savefig : chart → bool;
  sendMessage : string → bool;
  sendPhoto : chart → bool
}.

Definition metrics_list : list string :=
  ["users_feed"; "views"; "likes"; "ctr"; "users_message"; "messages"].

Section Dispatcher.
Context (env : collaborators).

Definition plt_savefig (c : chart) : M () :=
  if savefig env c then mret () else raise RenderError.

Definition bot_sendMessage (text : string) : M () :=
  if sendMessage env text then emit (SentMessage text) else raise NetworkError.

Definition bot_sendPhoto (c : chart) : M () :=
  if sendPhoto env c then emit (SentPhoto c) else raise NetworkError.

(** One turn of the loop of [get_alert], for one metric. *)
Definition alert_step (data : ref) (metric : string) : M () :=
  emit (Printed metric);;
  df ← select_copy data ["ts"; "date"; "hm"; metric];
  res ← (if decide (metric = "ctr")
         then check_anomaly_ctr df metric
         else check_anomaly df metric default_a default_n);
  let is_alert := res.1 in
  let df := res.2 in
  if decide (is_alert = 1%Z) then
    shown ← getnum df metric ≫= iloc_neg 1;
    current ← getnum df metric ≫= iloc_neg 1;
    previous ← getnum df metric ≫= iloc_neg 2;
    let msg := alert_text metric shown (percent_change current previous) (url env) in
    x ← getitem df "ts";
    y ← getnum df metric;
    up ← getnum df "up";
    low ← getnum df "low";
    let plot_object := mkChart (metric +:+ ".png") metric x y up low in
    plt_savefig plot_object;;
    bot_sendMessage msg;;
    bot_sendPhoto plot_object
  else mret ().

(** The loop over the metrics. *)
Fixpoint alert_loop (data : ref) (metrics : list string) : M () :=
  match metrics with
  | [] => mret ()
  | metric :: rest => alert_step data metric;; alert_loop data rest
  end.

(** [get_alert], from the frame the query returned. *)
Definition get_alert (data : ref) : M () := alert_loop data metrics_list.

End Dispatcher.

(** ** The envelope as the specification words it *)

Module Spec.

(** The [window_size] values immediately preceding position [i]: none
    when fewer precede it, or when one of them is not a number. *)
Definition preceding (window_size : nat) (xs : series) (i : nat) : option (list Q) :=
  if decide (window_size ≤ i)%nat
  then mapM id (take window_size (drop (i - window_size) xs))
  else None.

(** The percentile with linear interpolation is the one of the code. *)
Definition percentile (q : Q) (values : option (list Q)) : cell :=
  quantile q <$> values.

Section Envelope.
Context (spread_factor : Q) (window_size : nat) (xs : series).

Definition q25 (i : nat) : cell := percentile (1#4) (preceding window_size xs i).
Definition q75 (i : nat) : cell := percentile (3#4) (preceding window_size xs i).

Definition iqr (i : nat) : cell :=
  match q75 i, q25 i with
  | Some u, Some l => Some (u - l)
  | _, _ => None
  end.

Definition up_raw (i : nat) : cell :=
  match q75 i, iqr i with
  | Some u, Some d => Some (u + spread_factor * d)
  | _, _ => None
  end.

Definition low_raw (i : nat) : cell :=
  match q25 i, iqr i with
  | Some l, Some d => Some (l - spread_factor * d)
  | _, _ => None
  end.

(** The average of the raw bounds that are defined at the positions
    [first .. last], clipped at the series edges: undefined without
    one sample at least. *)
Definition average (raw : nat → cell) (first last : Z) : cell :=
  let lo := Z.to_nat (Z.max 0 first) in
  let hi := Z.min (Z.of_nat (length xs) - 1) last in
  let samples := omap raw (seq lo (Z.to_nat (hi + 1 - Z.of_nat lo))) in
  match samples with
  | [] => None
  | _ => Some (mean samples)
  end.

(** Smoothing as section 4.1 gives it: from [i - w/2] to [i + w/2]. *)
Definition smooth (raw : nat → cell) (i : nat) : cell :=
  average raw (Z.of_nat i - Z.of_nat window_size / 2)
              (Z.of_nat i + Z.of_nat window_size / 2).

Definition up (i : nat) : cell := smooth up_raw i.
Definition low (i : nat) : cell := smooth low_raw i.

(** The window of exactly [window_size] positions that starts at
    [i - w/2]: it ends at [i + (w-1)/2]. *)
Definition smooth_width (raw : nat → cell) (i : nat) : cell :=
  average raw (Z.of_nat i - Z.of_nat window_size / 2)
              (Z.of_nat i + (Z.of_nat window_size - 1) / 2).

Definition up_width (i : nat) : cell := smooth_width up_raw i.
Definition low_width (i : nat) : cell := smooth_width low_raw i.
End Envelope.

End Spec.

(** ** The columns of the annotated frame *)

Section Columns.
Context (a : Q) (n : nat) (xs : series).

Definition col_q25 : series := rolling_quantile n (1#4) (shift1 xs).
Definition col_q75 : series := rolling_quantile n (3#4) (shift1 xs).
Definition col_iqr : series := series_sub col_q75 col_q25.
Definition col_up_raw : series := series_add col_q75 (series_scale a col_iqr).
Definition col_low_raw : series := series_sub col_q25 (series_scale a col_iqr).
Definition col_up : series := centered_mean n col_up_raw.
Definition col_low : series := centered_mean n col_low_raw.

(** The frame after the first five assignments of [check_anomaly]: the
    one it leaves when the smoothing refuses the window. *)
Definition annotated_raw (df : DataFrame) : DataFrame :=
  mkDataFrame (nrows df)
    (<["low" := Num col_low_raw]> (<["up" := Num col_up_raw]>
     (<["iqr" := Num col_iqr]> (<["q75" := Num col_q75]>
     (<["q25" := Num col_q25]> (columns df)))))).

(** The frame after the seven assignments of [check_anomaly], in their
    order. *)
Definition annotated (df : DataFrame) : DataFrame :=
  mkDataFrame (nrows df)
    (<["low" := Num col_low]> (<["up" := Num col_up]>
     (<["low" := Num col_low_raw]> (<["up" := Num col_up_raw]>
     (<["iqr" := Num col_iqr]> (<["q75" := Num col_q75]>
     (<["q25" := Num col_q25]> (columns df)))))))).
End Columns.

(** The frame after the two assignments of [check_anomaly_ctr]. *)
Definition annotated_ctr (df : DataFrame) : DataFrame :=
  mkDataFrame (nrows df)
    (<["low" := Num (replicate (nrows df) (Some (19#100)))]>
     (<["up" := Num (replicate (nrows df) (Some (23#100)))]> (columns df))).

(** The test on the latest observation, with the short circuit of [or]. *)
Definition verdict (v l u : cell) : Z :=
  if cell_ltb v l then 1%Z else if cell_gtb v u then 1%Z else 0%Z.

(** What the test returns on the last cells of three columns; reading the
    last cell of an empty column raises. *)
Definition judge (r : ref) (vs lows ups : series) : outcome (Z * ref) :=
  match last vs with
  | None => Raise IndexError
  | Some v =>
      match last lows with
      | None => Raise IndexError
      | Some l =>
          if cell_ltb v l then Ok (1%Z, r)
          else match last ups with
               | None => Raise IndexError
               | Some u => if cell_gtb v u then Ok (1%Z, r) else Ok (0%Z, r)
               end
      end
  end.

(** ** Reading a world *)

(** Column [key] of the frame behind [r], when it is numeric. *)
Definition column_of (w : world) (r : ref) (key : string) : option series :=
  df ← heap w !! r;
  c ← columns df !! key;
  match c with Num vs => Some vs | Obj _ => None end.

(** Cell [i] of that column. *)
Definition cell_of (w : world) (r : ref) (key : string) (i : nat) : option cell :=
  vs ← column_of w r key; vs !! i.

(** The names of the columns [check_anomaly] assigns. *)
Definition derived_columns : list string := ["q25"; "q75"; "iqr"; "up"; "low"].

(** [x] lies strictly below [y]: both are numbers. *)
Definition cell_lt (x y : cell) : Prop :=
  match x, y with
  | Some p, Some q => p < q
  | _, _ => False
  end.

(** Two cells hold the same number, or are both NaN. *)
Definition cell_equiv (x y : cell) : Prop :=
  match x, y with
  | Some p, Some q => p == q
  | None, None => True
  | _, _ => False
  end.

(** Two bounds at one position: undefined together, or [low <= up]. *)
Definition bounds_ordered (l u : cell) : Prop :=
  match l, u with
  | Some p, Some q => p <= q
  | None, None => True
  | _, _ => False
  end.

(** ** Statements about a run *)

(** The verdict of a run, without the frame. *)
Definition is_alert_of (res : outcome (Z * ref) * world) : outcome Z :=
  match res.1 with
  | Ok (v, _) => Ok v
  | Raise e => Raise e
  end.

(** A number a float64 holds: a significand of 53 bits times a power of
    two in the range of the format. *)
Definition float64_exact (q : Q) : Prop :=
  ∃ m e : Z, (Z.abs m < 2 ^ 53)%Z ∧ (-1074 ≤ e ≤ 971)%Z ∧ q == inject_Z m * 2 ^ e.

(** A cell the comparison with a float64 reads as it is: NaN, or a number
    a float64 holds (an int64 beyond 2^53 is rounded first). *)
Definition cell_exact (x : cell) : Prop := ∀ q, x = Some q → float64_exact q.


(** The run assigned columns named in [assigned] on the frame behind [r],
    in place: it returns [r] itself, allocates nothing, leaves the other
    frames, the index and every other column of the frame as they were. *)
Definition annotates_in_place (assigned : list string)
    (res : outcome (Z * ref) * world) (w : world) (r : ref) : Prop :=
  (∀ v r', res.1 = Ok (v, r') → r' = r)
  ∧ trace res.2 = trace w
  ∧ dom (heap res.2) = dom (heap w)
  ∧ (∀ r2, r2 ≠ r → heap res.2 !! r2 = heap w !! r2)
  ∧ ∃ df df',
      heap w !! r = Some df ∧ heap res.2 !! r = Some df'
      ∧ nrows df' = nrows df
      ∧ (∀ k, k ∉ assigned → columns df' !! k = columns df !! k)
      ∧ (∀ k, k ∈ ["low"; "up"] → is_Some (columns df' !! k)).

(** The reading of an annotated copy: the run returns a new frame and the
    frame of the caller is as it was. *)
Definition returns_copy (res : outcome (Z * ref) * world) (w : world) (r : ref) : Prop :=
  ∀ v r', res.1 = Ok (v, r') → r' ≠ r ∧ heap res.2 !! r = heap w !! r.

(** Cell [i] of a column of the frame is the cell the specification
    gives. *)
Definition cell_matches (found : option cell) (expected : cell) : Prop :=
  ∃ c, found = Some c ∧ cell_equiv c expected.

(** The frame behind [r] holds, at every position, the quartiles and the
    range of the specification, and the bounds [low] and [up] given. *)
Definition envelope_matches (low up : nat → cell) (n : nat) (xs : series)
    (w : world) (r : ref) : Prop :=
  ∀ i, (i < length xs)%nat →
    cell_matches (cell_of w r "q25" i) (Spec.q25 n xs i)
    ∧ cell_matches (cell_of w r "q75" i) (Spec.q75 n xs i)
    ∧ cell_matches (cell_of w r "iqr" i) (Spec.iqr n xs i)
    ∧ cell_matches (cell_of w r "low" i) (low i)
    ∧ cell_matches (cell_of w r "up" i) (up i).

(** ** Sample inputs *)

Definition frame_of (n : nat) (cols : list (string * column)) : DataFrame :=
  mkDataFrame n (list_to_map cols).

Definition stamps (n : nat) : column := Obj (replicate n "2024-05-28").

(** A snapshot with one metric series. *)
Definition snapshot (metric : string) (xs : series) : DataFrame :=
  frame_of (length xs)
    [("ts", stamps (length xs)); ("date", stamps (length xs));
     ("hm", stamps (length xs)); (metric, Num xs)].

Definition world_of (df : DataFrame) : world := mkWorld {[ 1%positive := df ]} [].

Definition scenario : series := [Some 10; Some 12; Some 11; Some 13; Some 90; Some 91].

(** The snapshot of the scenario, alone in the store, behind reference 1. *)
Definition sample_frame : DataFrame := snapshot "views" scenario.
Definition sample_heap : gmap ref DataFrame := {[ 1%positive := sample_frame ]}.
Definition sample_world : world := mkWorld sample_heap [].

(** A snapshot without rows. *)
Definition empty_frame : DataFrame := snapshot "views" [].
Definition empty_heap : gmap ref DataFrame := {[ 1%positive := empty_frame ]}.

(** A ratio series that ends as the scenario does not: same last value as
    [ctr_b], another history. *)
Definition ctr_a : series := [Some (20#100); Some (22#100); Some (25#100)].
Definition ctr_b : series := [Some (3#100); Some (25#100)].

(** A series whose raw bounds differ from one position to the next. *)
Definition doubling : series := [Some 1; Some 2; Some 4; Some 8; Some 16].
Definition doubling_heap : gmap ref DataFrame := {[ 1%positive := snapshot "views" doubling ]}.

(** Collaborators that never fail, and a notifier that always does. *)
Definition env_ok : collaborators :=
  mkCollaborators "https://dashboard" (λ _, true) (λ _, true) (λ _, true).
Definition env_down : collaborators :=
  mkCollaborators "https://dashboard" (λ _, true) (λ _, false) (λ _, true).

(** A snapshot with two metrics that both end as the scenario does. *)
Definition two_metrics : DataFrame :=
  frame_of 6
    [("ts", stamps 6); ("date", stamps 6); ("hm", stamps 6);
     ("views", Num scenario); ("likes", Num scenario)].
Definition two_metrics_heap : gmap ref DataFrame := {[ 1%positive := two_metrics ]}.

(** A short history: three observations, fewer than the window of 5. *)
Definition short : series := [Some 10; Some 500; Some 3].
Definition short_heap : gmap ref DataFrame := {[ 1%positive := snapshot "views" short ]}.

(** A snapshot without rows, with two metrics. *)
Definition no_rows : DataFrame :=
  frame_of 0
    [("ts", stamps 0); ("date", stamps 0); ("hm", stamps 0);
     ("views", Num []); ("likes", Num [])].

(** The reading of graceful degradation: the turn of the loop for the
    metric returns, sends nothing, and the loop goes on with the rest. *)
Definition degrades_gracefully (env : collaborators) (data : ref)
    (metric : string) (rest : list string) (w : world) : Prop :=
  ∃ w',
    alert_step env data metric w = (Ok (), w')
    ∧ trace w' = trace w ++ [Printed metric]
    ∧ heap w' !! data = heap w !! data
    ∧ alert_loop env data (metric :: rest) w = alert_loop env data rest w'.

(** The reading of failure isolation: whatever fails for one metric, the
    run goes through the whole list. *)
Definition isolates_failures (env : collaborators) (data : ref)
    (metrics : list string) (w : world) : Prop :=
  ∀ metric, metric ∈ metrics →
    Printed metric ∈ trace (alert_loop env data metrics w).2.

(** ** The turn of the loop, in its parts *)

(** The estimator the dispatcher picks for a metric. *)
Definition estimate (metric : string) (df : ref) : M (Z * ref) :=
  if decide (metric = "ctr")
  then check_anomaly_ctr df metric
  else check_anomaly df metric default_a default_n.

(** The branch of the turn for a flagged metric: the text, the chart and
    the three calls. *)
Definition notify (env : collaborators) (metric : string) (df : ref) : M () :=
  shown ← getnum df metric ≫= iloc_neg 1;
  current ← getnum df metric ≫= iloc_neg 1;
  previous ← getnum df metric ≫= iloc_neg 2;
  let msg := alert_text metric shown (percent_change current previous) (url env) in
  x ← getitem df "ts";
  y ← getnum df metric;
  up ← getnum df "up";
  low ← getnum df "low";
  let plot_object := mkChart (metric +:+ ".png") metric x y up low in
  plt_savefig env plot_object;;
  bot_sendMessage env msg;;
  bot_sendPhoto env plot_object.

(** [s.iloc[-k]] as a value: none when the series has fewer than [k]
    cells. *)
Definition nth_last (k : nat) (s : series) : option cell :=
  if decide (k ≤ length s)%nat then s !! (length s - k)%nat else None.

(** The frame and the bounds a turn leaves behind the copy. *)
Definition turn_frame (metric : string) (xs : series) (base : DataFrame) : DataFrame :=
  if decide (metric = "ctr") then annotated_ctr base
  else annotated default_a default_n xs base.

Definition turn_low (metric : string) (rows : nat) (xs : series) : series :=
  if decide (metric = "ctr") then replicate rows (Some (19#100))
  else col_low default_a default_n xs.

Definition turn_up (metric : string) (rows : nat) (xs : series) : series :=
  if decide (metric = "ctr") then replicate rows (Some (23#100))
  else col_up default_a default_n xs.

(** The snapshot has the three time columns and a numeric series, as long
    as its index, for the metric. *)
Definition snapshot_has (d : DataFrame) (metric : string) (xs : series) : Prop :=
  (∀ k, k ∈ ["ts"; "date"; "hm"] → is_Some (columns d !! k))
  ∧ columns d !! metric = Some (Num xs)
  ∧ nrows d = length xs
  ∧ metric ∉ derived_columns.

(** The names printed, the texts and the photos sent in a trace. *)
Definition printed (evs : list event) : list string :=
  omap (λ ev, match ev with Printed s => Some s | _ => None end) evs.
Definition messages (evs : list event) : list string :=
  omap (λ ev, match ev with SentMessage s => Some s | _ => None end) evs.
Definition photos (evs : list event) : list chart :=
  omap (λ ev, match ev with SentPhoto c => Some c | _ => None end) evs.

(** Collaborators whose last call fails, and collaborators that cannot
    save the figure. *)
Definition env_no_photo : collaborators :=
  mkCollaborators "https://dashboard" (λ _, true) (λ _, true) (λ _, false).
Definition env_no_figure : collaborators :=
  mkCollaborators "https://dashboard" (λ _, false) (λ _, true) (λ _, true).

(** A ratio series of one observation, outside the fixed bounds. *)
Definition ctr_single : series := [Some (25#100)].

(** ** Effects of a computation *)

(** The computation leaves the frame behind [r0] and the trace as they
    are, whatever it returns. *)
Definition keeps (r0 : ref) {A} (m : M A) : Prop :=
  ∀ w, heap (m w).2 !! r0 = heap w !! r0 ∧ trace (m w).2 = trace w.

(** What a turn adds to the trace after the printed line: nothing; or a
    text alone, and then the turn raised [NetworkError]; or a text and its
    photo, and then the turn returned. *)
Definition turn_tail (o : outcome ()) (tail : list event) : Prop :=
  tail = []
  ∨ (∃ msg, tail = [SentMessage msg] ∧ o = Raise NetworkError)
  ∨ (∃ msg c, tail = [SentMessage msg; SentPhoto c] ∧ o = Ok ()).

(** The computation leaves the frame behind [r0] as it is and adds such a
    tail to the trace. *)
Definition shaped (r0 : ref) (m : M ()) : Prop :=
  ∀ w, heap (m w).2 !! r0 = heap w !! r0
       ∧ ∃ tail, trace (m w).2 = trace w ++ tail ∧ turn_tail (m w).1 tail.

(** ** Further inputs *)

(** A flat history of five observations, then a small move. *)
Definition flat_then_move : series := replicate 5 (Some 10) ++ [Some 11].

(** Two histories that differ in the latest observation only. *)
Definition history : series := [Some 10; Some 12; Some 11; Some 13; Some 90].
Definition latest_a : series := history ++ [Some 91].
Definition latest_b : series := history ++ [Some 14].

(** A ratio series inside the fixed bounds. *)
Definition ctr_calm : series := [Some (20#100); Some (21#100)].

(** * Properties *)

(** ** Running the monad *)

Lemma bind_ok {A B} (m : M A) (f : A → M B) w a w' :
  m w = (Ok a, w') → (m ≫= f) w = f a w'.
Proof. intros H. unfold mbind, M_bind. by rewrite H. Qed.

Lemma bind_raise {A B} (m : M A) (f : A → M B) w e w' :
  m w = (Raise e, w') → (m ≫= f) w = (Raise e, w').
Proof. intros H. unfold mbind, M_bind. by rewrite H. Qed.

Lemma getitem_run h t r df key c :
  h !! r = Some df → columns df !! key = Some c →
  getitem r key (mkWorld h t) = (Ok c, mkWorld h t).
Proof.
  intros Hr Hk. unfold getitem, mbind, M_bind, deref. cbn [heap].
  rewrite Hr. by rewrite Hk.
Qed.

Lemma getnum_or_run e h t r df key vs :
  h !! r = Some df → columns df !! key = Some (Num vs) →
  getnum_or e r key (mkWorld h t) = (Ok vs, mkWorld h t).
Proof.
  intros Hr Hk. unfold getnum_or.
  by rewrite (bind_ok _ _ _ _ _ (getitem_run _ _ _ _ _ _ Hr Hk)).
Qed.

Lemma getnum_run h t r df key vs :
  h !! r = Some df → columns df !! key = Some (Num vs) →
  getnum r key (mkWorld h t) = (Ok vs, mkWorld h t).
Proof.
  intros Hr Hk. unfold getnum.
  by rewrite (bind_ok _ _ _ _ _ (getitem_run _ _ _ _ _ _ Hr Hk)).
Qed.

Lemma rolling_mean_center_run n s w :
  (1 ≤ n)%nat → rolling_mean_center n s w = (Ok (centered_mean n s), w).
Proof. intros Hn. unfold rolling_mean_center. case_decide; [lia|done]. Qed.

Lemma rolling_mean_center_zero s w :
  rolling_mean_center 0 s w = (Raise ValueError, w).
Proof. done. Qed.

Lemma setitem_run h t r df key vs :
  h !! r = Some df →
  setitem r key vs (mkWorld h t)
  = (Ok (), mkWorld (<[r := with_column df key (Num vs)]> h) t).
Proof.
  intros Hr. unfold setitem, mbind, M_bind, deref. cbn [heap]. by rewrite Hr.
Qed.

Lemma setitem_scalar_run h t r df key v :
  h !! r = Some df →
  setitem_scalar r key v (mkWorld h t)
  = (Ok (), mkWorld (<[r := with_column df key (Num (replicate (nrows df) (Some v)))]> h) t).
Proof.
  intros Hr. unfold setitem_scalar, mbind, M_bind, deref. cbn [heap]. by rewrite Hr.
Qed.

Lemma iloc_last_run vs w :
  iloc_neg 1 vs w
  = match last vs with
    | Some c => (Ok c, w)
    | None => (Raise IndexError, w)
    end.
Proof.
  unfold iloc_neg. rewrite last_lookup.
  destruct vs as [|v vs]; [done|].
  case_decide; [|simpl in *; lia].
  replace (length (v :: vs) - 1)%nat with (Nat.pred (length (v :: vs))) by (simpl; lia).
  by destruct (_ !! _).
Qed.

Lemma getnum_last_run h t r df key vs :
  h !! r = Some df → columns df !! key = Some (Num vs) →
  (getnum r key ≫= iloc_neg 1) (mkWorld h t)
  = match last vs with
    | Some c => (Ok c, mkWorld h t)
    | None => (Raise IndexError, mkWorld h t)
    end.
Proof.
  intros Hr Hk.
  rewrite (bind_ok _ _ _ _ _ (getnum_run _ _ _ _ _ _ Hr Hk)).
  apply iloc_last_run.
Qed.

(** The test both estimators end with. *)
Lemma test_run h t r df metric vs lows ups :
  h !! r = Some df →
  columns df !! metric = Some (Num vs) →
  columns df !! "low" = Some (Num lows) →
  columns df !! "up" = Some (Num ups) →
  (v ← getnum r metric ≫= iloc_neg 1;
   l ← getnum r "low" ≫= iloc_neg 1;
   if cell_ltb v l then mret (1%Z, r)
   else
     v ← getnum r metric ≫= iloc_neg 1;
     u ← getnum r "up" ≫= iloc_neg 1;
     if cell_gtb v u then mret (1%Z, r) else mret (0%Z, r)) (mkWorld h t)
  = (judge r vs lows ups, mkWorld h t).
Proof.
  intros Hr Hm Hl Hu. unfold judge.
  pose proof (getnum_last_run h t r df metric vs Hr Hm) as Hv.
  pose proof (getnum_last_run h t r df "low" lows Hr Hl) as Hlo.
  pose proof (getnum_last_run h t r df "up" ups Hr Hu) as Hup.
  destruct (last vs) as [v|].
  2:{ by rewrite (bind_raise _ _ _ _ _ Hv). }
  rewrite (bind_ok _ _ _ _ _ Hv).
  destruct (last lows) as [l|].
  2:{ by rewrite (bind_raise _ _ _ _ _ Hlo). }
  rewrite (bind_ok _ _ _ _ _ Hlo).
  destruct (cell_ltb v l); [done|].
  rewrite (bind_ok _ _ _ _ _ Hv).
  destruct (last ups) as [u|].
  2:{ by rewrite (bind_raise _ _ _ _ _ Hup). }
  rewrite (bind_ok _ _ _ _ _ Hup).
  by destruct (cell_gtb v u).
Qed.

Lemma not_derived metric :
  metric ∉ derived_columns →
  metric ≠ "q25" ∧ metric ≠ "q75" ∧ metric ≠ "iqr" ∧ metric ≠ "up" ∧ metric ≠ "low".
Proof.
  unfold derived_columns. intros H.
  repeat split; intros ->; apply H; repeat first [left; reflexivity | right]; left.
Qed.

Ltac lookup_col :=
  cbn [columns with_column];
  repeat first [ rewrite lookup_insert_eq; reflexivity
               | rewrite lookup_insert_ne by done ];
  first [ eassumption | reflexivity ].

(** [check_anomaly] in closed form: the frame behind [df] becomes the
    annotated frame, in place, whatever the test then returns. *)
Lemma check_anomaly_run h t r df metric a n xs :
  h !! r = Some df →
  columns df !! metric = Some (Num xs) →
  metric ∉ derived_columns →
  (1 ≤ n)%nat →
  check_anomaly r metric a n (mkWorld h t)
  = (judge r xs (col_low a n xs) (col_up a n xs),
     mkWorld (<[r := annotated a n xs df]> h) t).
Proof.
  intros Hr Hm (N1 & N2 & N3 & N4 & N5)%not_derived Hn.
  unfold check_anomaly.
  rewrite (bind_ok _ _ _ _ _ (getnum_or_run _ _ _ _ _ _ _ Hr Hm)).
  rewrite (bind_ok _ _ _ _ _ (setitem_run _ _ _ _ _ _ Hr)).
  repeat (
    first [ erewrite bind_ok by (eapply getnum_or_run; [apply lookup_insert_eq | lookup_col])
          | erewrite bind_ok by (eapply getnum_run; [apply lookup_insert_eq | lookup_col])
          | erewrite bind_ok by (by apply rolling_mean_center_run)
          | erewrite bind_ok by (eapply setitem_run; apply lookup_insert_eq) ];
    rewrite ?insert_insert_eq).
  erewrite test_run; [reflexivity | apply lookup_insert_eq | lookup_col ..].
Qed.

(** With a window of 0 the quartile columns, their spread and the raw
    bounds are written, then the smoothing raises. *)
Lemma check_anomaly_run_zero h t r df metric a xs :
  h !! r = Some df →
  columns df !! metric = Some (Num xs) →
  metric ∉ derived_columns →
  check_anomaly r metric a 0 (mkWorld h t)
  = (Raise ValueError, mkWorld (<[r := annotated_raw a 0 xs df]> h) t).
Proof.
  intros Hr Hm (N1 & N2 & N3 & N4 & N5)%not_derived.
  unfold check_anomaly.
  rewrite (bind_ok _ _ _ _ _ (getnum_or_run _ _ _ _ _ _ _ Hr Hm)).
  rewrite (bind_ok _ _ _ _ _ (setitem_run _ _ _ _ _ _ Hr)).
  repeat (
    first [ erewrite bind_ok by (eapply getnum_or_run; [apply lookup_insert_eq | lookup_col])
          | erewrite bind_ok by (eapply getnum_run; [apply lookup_insert_eq | lookup_col])
          | erewrite bind_ok by (eapply setitem_run; apply lookup_insert_eq) ];
    rewrite ?insert_insert_eq).
  by erewrite bind_raise by apply rolling_mean_center_zero.
Qed.

Lemma check_anomaly_ctr_run h t r df metric xs :
  h !! r = Some df →
  columns df !! metric = Some (Num xs) →
  metric ≠ "up" → metric ≠ "low" →
  check_anomaly_ctr r metric (mkWorld h t)
  = (judge r xs (replicate (nrows df) (Some (19#100)))
                (replicate (nrows df) (Some (23#100))),
     mkWorld (<[r := annotated_ctr df]> h) t).
Proof.
  intros Hr Hm N1 N2. unfold check_anomaly_ctr.
  rewrite (bind_ok _ _ _ _ _ (setitem_scalar_run _ _ _ _ _ _ Hr)).
  erewrite bind_ok by (eapply setitem_scalar_run; apply lookup_insert_eq).
  rewrite insert_insert_eq.
  erewrite test_run; [reflexivity | apply lookup_insert_eq | lookup_col ..].
Qed.

(** ** Lengths: every derived column spans the index *)

Lemma length_shift1 s : length (shift1 s) = length s.
Proof.
  destruct s as [|c s]; [done|].
  unfold shift1. cbn [length]. rewrite length_take. cbn [length]. lia.
Qed.

Lemma length_rolling_apply agg window center mp s :
  length (rolling_apply agg window center mp s) = length s.
Proof. unfold rolling_apply. by rewrite length_fmap, length_seq. Qed.

Lemma length_col_q25 n xs : length (col_q25 n xs) = length xs.
Proof. unfold col_q25, rolling_quantile. by rewrite length_rolling_apply, length_shift1. Qed.

Lemma length_col_q75 n xs : length (col_q75 n xs) = length xs.
Proof. unfold col_q75, rolling_quantile. by rewrite length_rolling_apply, length_shift1. Qed.

Lemma length_col_iqr n xs : length (col_iqr n xs) = length xs.
Proof.
  unfold col_iqr, series_sub.
  rewrite length_zip_with, length_col_q25, length_col_q75. lia.
Qed.

Lemma length_col_up_raw a n xs : length (col_up_raw a n xs) = length xs.
Proof.
  unfold col_up_raw, series_add, series_scale.
  rewrite length_zip_with, length_fmap, length_col_iqr, length_col_q75. lia.
Qed.

Lemma length_col_low_raw a n xs : length (col_low_raw a n xs) = length xs.
Proof.
  unfold col_low_raw, series_sub, series_scale.
  rewrite length_zip_with, length_fmap, length_col_iqr, length_col_q25. lia.
Qed.

Lemma length_col_up a n xs : length (col_up a n xs) = length xs.
Proof. unfold col_up, centered_mean. by rewrite length_rolling_apply, length_col_up_raw. Qed.

Lemma length_col_low a n xs : length (col_low a n xs) = length xs.
Proof. unfold col_low, centered_mean. by rewrite length_rolling_apply, length_col_low_raw. Qed.

Lemma last_of_length {A} (l k : list A) x :
  length l = length k → last k = Some x → ∃ y, last l = Some y.
Proof.
  intros Hlen Hk. apply last_is_Some. intros ->.
  destruct k; [done | discriminate].
Qed.

Lemma last_replicate_Some {A} n (c x : A) :
  last (replicate n c) = Some x → x = c.
Proof.
  intros H. apply last_Some_elem_of in H.
  by apply elem_of_replicate in H as [-> _].
Qed.

(** ** The comparisons *)

Lemma cell_ltb_lt x y : cell_ltb x y = true ↔ cell_lt x y.
Proof.
  destruct x as [p|], y as [q|]; cbn; try (split; [discriminate | tauto]).
  destruct (Qlt_le_dec p q) as [H|H]; split; try done.
  intros H'. exfalso. by apply (Qlt_not_le p q).
Qed.

Lemma verdict_spec v l u : verdict v l u = 1%Z ↔ cell_lt v l ∨ cell_lt u v.
Proof.
  unfold verdict, cell_gtb. rewrite <- !cell_ltb_lt.
  destruct (cell_ltb v l), (cell_ltb u v); split; intros H; try done; auto.
  destruct H; discriminate.
Qed.



Lemma judge_verdict r vs lows ups v l u :
  last vs = Some v → last lows = Some l → last ups = Some u →
  judge r vs lows ups = Ok (verdict v l u, r).
Proof.
  intros Hv Hl Hu. unfold judge, verdict. rewrite Hv, Hl, Hu.
  by destruct (cell_ltb v l), (cell_gtb v u).
Qed.


(** ** The sort, and the quantile between two ranks *)

Lemma insert_sorted_Forall x y l :
  y <= x → Forall (Qle y) l → Forall (Qle y) (insert_sorted x l).
Proof.
  intros Hyx. induction 1 as [|z l Hz Hl IH]; cbn.
  - by constructor.
  - destruct (Qle_bool x z); repeat constructor; auto.
Qed.

Lemma insert_sorted_sorted x l :
  StronglySorted Qle l → StronglySorted Qle (insert_sorted x l).
Proof.
  induction 1 as [|y l Hs IH Hy]; cbn.
  - repeat constructor.
  - destruct (Qle_bool x y) eqn:E.
    + apply Qle_bool_iff in E. constructor; [by constructor|].
      constructor; [done|].
      eapply Forall_impl; [exact Hy|]. intros z Hz. by apply (Qle_trans _ y).
    + constructor; [done|]. apply insert_sorted_Forall; [|done].
      destruct (Qlt_le_dec y x) as [H|H]; [by apply Qlt_le_weak|].
      apply Qle_bool_iff in H. congruence.
Qed.

Lemma sort_sorted l : StronglySorted Qle (sort l).
Proof.
  induction l as [|x l IH]; cbn; [constructor | by apply insert_sorted_sorted].
Qed.

Lemma length_insert_sorted x l : length (insert_sorted x l) = S (length l).
Proof.
  induction l as [|y l IH]; cbn; [done|].
  destruct (Qle_bool x y); cbn; by rewrite ?IH.
Qed.

Lemma length_sort l : length (sort l) = length l.
Proof.
  induction l as [|x l IH]; cbn; [done|].
  rewrite length_insert_sorted. f_equal. exact IH.
Qed.

Lemma sorted_nth_le s i j :
  StronglySorted Qle s → (i ≤ j)%nat → (j < length s)%nat →
  nth i s 0 <= nth j s 0.
Proof.
  intros Hs. revert i j. induction Hs as [|x s Hs IH Hx]; intros i j Hij Hj.
  - cbn in Hj. lia.
  - destruct i as [|i], j as [|j]; cbn in *; try lia.
    + apply Qle_refl.
    + rewrite Forall_forall in Hx. apply Hx.
      apply list_elem_of_In, nth_In. lia.
    + apply IH; lia.
Qed.

Lemma quantile_interp q obs :
  quantile q obs
  == interp (sort obs) (q * (inject_Z (Z.of_nat (length obs)) - 1)).
Proof.
  unfold quantile, interp.
  set (h := q * (inject_Z (Z.of_nat (length obs)) - 1)).
  set (k := Z.to_nat (Qfloor h)).
  destruct (Qeq_bool h (inject_Z (Z.of_nat k))) eqn:E; [|reflexivity].
  apply Qeq_bool_iff in E. rewrite E. ring.
Qed.

Lemma rank_floor h :
  0 <= h →
  let k := Z.to_nat (Qfloor h) in
  inject_Z (Z.of_nat k) <= h ∧ h < inject_Z (Z.of_nat k) + 1.
Proof.
  intros Hh k.
  assert (0 ≤ Qfloor h)%Z as Hf.
  { rewrite <- (Qfloor_Z 0). by apply Qfloor_resp_le. }
  unfold k. rewrite Z2Nat.id by done. split.
  - apply Qfloor_le.
  - pose proof (Qlt_floor h) as H. rewrite inject_Z_plus in H. exact H.
Qed.

Lemma rank_bound h (N : nat) :
  0 <= h → h <= inject_Z (Z.of_nat N) - 1 →
  (Z.to_nat (Qfloor h) ≤ N - 1)%nat ∧ (1 ≤ N)%nat.
Proof.
  intros H0 HN.
  assert (Qfloor h ≤ Z.of_nat N - 1)%Z as Hf.
  { rewrite <- (Qfloor_Z (Z.of_nat N - 1)). apply Qfloor_resp_le.
    unfold Z.sub. rewrite inject_Z_plus. exact HN. }
  assert (0 ≤ Qfloor h)%Z as Hf0.
  { rewrite <- (Qfloor_Z 0). by apply Qfloor_resp_le. }
  lia.
Qed.

Lemma inject_nat_succ (k : nat) :
  inject_Z (Z.of_nat (k + 1)) == inject_Z (Z.of_nat k) + 1.
Proof. rewrite Nat2Z.inj_add, inject_Z_plus. reflexivity. Qed.

(** The step above rank [k] is not negative, up to the last rank. *)
Lemma interp_step_nonneg s k h :
  StronglySorted Qle s →
  inject_Z (Z.of_nat k) <= h →
  h <= inject_Z (Z.of_nat (length s)) - 1 →
  0 <= (nth (k + 1) s 0 - nth k s 0) * (h - inject_Z (Z.of_nat k)).
Proof.
  intros Hs Hk HN.
  destruct (decide (k + 1 < length s)%nat) as [Hlt|Hge].
  - apply Qmult_le_0_compat; [|lra].
    pose proof (sorted_nth_le s k (k + 1) Hs ltac:(lia) Hlt). lra.
  - assert (inject_Z (Z.of_nat (length s)) <= inject_Z (Z.of_nat (k + 1))) as Hle.
    { rewrite <- Zle_Qle. lia. }
    rewrite inject_nat_succ in Hle.
    assert (h - inject_Z (Z.of_nat k) == 0) as -> by lra.
    rewrite Qmult_0_r. apply Qle_refl.
Qed.

Lemma interp_mono s h1 h2 :
  StronglySorted Qle s →
  0 <= h1 → h1 <= h2 → h2 <= inject_Z (Z.of_nat (length s)) - 1 →
  interp s h1 <= interp s h2.
Proof.
  intros Hs H0 H12 HN.
  assert (0 <= h2) as H02 by lra.
  destruct (rank_floor h1 H0) as [Ha1 Hb1].
  destruct (rank_floor h2 H02) as [Ha2 Hb2].
  destruct (rank_bound h2 (length s) H02 HN) as [Hk2 HN1].
  assert (Z.to_nat (Qfloor h1) ≤ Z.to_nat (Qfloor h2))%nat as Hk.
  { apply Z2Nat.inj_le.
    - rewrite <- (Qfloor_Z 0). by apply Qfloor_resp_le.
    - rewrite <- (Qfloor_Z 0). by apply Qfloor_resp_le.
    - by apply Qfloor_resp_le. }
  unfold interp.
  set (k1 := Z.to_nat (Qfloor h1)) in *. set (k2 := Z.to_nat (Qfloor h2)) in *.
  pose proof (interp_step_nonneg s k2 h2 Hs Ha2 HN) as Hstep2.
  destruct (decide (k1 = k2)) as [->|Hne].
  - destruct (decide (k2 + 1 < length s)%nat) as [Hlt|Hge].
    + pose proof (sorted_nth_le s k2 (k2 + 1) Hs ltac:(lia) Hlt) as Hd.
      apply Qplus_le_r.
      rewrite !(Qmult_comm (nth (k2 + 1) s 0 - nth k2 s 0)).
      apply Qmult_le_compat_r; lra.
    + assert (inject_Z (Z.of_nat (length s)) <= inject_Z (Z.of_nat (k2 + 1))) as Hle.
      { rewrite <- Zle_Qle. lia. }
      rewrite inject_nat_succ in Hle.
      assert (h1 - inject_Z (Z.of_nat k2) == 0) as -> by lra.
      assert (h2 - inject_Z (Z.of_nat k2) == 0) as -> by lra.
      apply Qle_refl.
  - assert (k1 + 1 ≤ k2)%nat as Hlt by lia.
    pose proof (sorted_nth_le s k1 (k1 + 1) Hs ltac:(lia) ltac:(lia)) as Hd1.
    pose proof (sorted_nth_le s (k1 + 1) k2 Hs Hlt ltac:(lia)) as Hd2.
    apply (Qle_trans _ (nth (k1 + 1) s 0)); [|lra].
    assert ((nth (k1 + 1) s 0 - nth k1 s 0) * (h1 - inject_Z (Z.of_nat k1))
            <= (nth (k1 + 1) s 0 - nth k1 s 0) * 1) as Hm.
    { rewrite !(Qmult_comm (nth (k1 + 1) s 0 - nth k1 s 0)).
      apply Qmult_le_compat_r; lra. }
    lra.
Qed.

(** The lower quartile of a window is at most its upper quartile. *)
Lemma quantile_quartiles obs :
  obs ≠ [] → quantile (1#4) obs <= quantile (3#4) obs.
Proof.
  intros Hne. rewrite !quantile_interp.
  assert (1 <= inject_Z (Z.of_nat (length obs))) as HN.
  { change 1 with (inject_Z 1). rewrite <- Zle_Qle. destruct obs; [done | cbn; lia]. }
  apply interp_mono.
  - apply sort_sorted.
  - lra.
  - lra.
  - rewrite length_sort. lra.
Qed.

(** ** The envelope is ordered *)

Lemma observations_ordered w1 w2 :
  Forall2 bounds_ordered w1 w2 → Forall2 Qle (observations w1) (observations w2).
Proof.
  unfold observations.
  induction 1 as [|[p|] [q|] w1 w2 H Hw IH]; cbn in *; try done.
  by constructor.
Qed.

Lemma sum_mono l1 l2 : Forall2 Qle l1 l2 → sum l1 <= sum l2.
Proof.
  induction 1 as [|x y l1 l2 Hxy Hl IH]; cbn.
  - apply Qle_refl.
  - by apply Qplus_le_compat.
Qed.

Lemma mean_mono l1 l2 : Forall2 Qle l1 l2 → mean l1 <= mean l2.
Proof.
  intros H. unfold mean. rewrite (Forall2_length _ _ _ H).
  apply Qmult_le_compat_r; [by apply sum_mono|].
  apply Qinv_le_0_compat. change 0 with (inject_Z 0). rewrite <- Zle_Qle. lia.
Qed.

Lemma window_at_Forall2 {R : cell → cell → Prop} window center s1 s2 i :
  Forall2 R s1 s2 → Forall2 R (window_at window center s1 i) (window_at window center s2 i).
Proof.
  intros H. unfold window_at. rewrite (Forall2_length _ _ _ H).
  by apply Forall2_take, Forall2_drop.
Qed.

(** Smoothing keeps two columns ordered. *)
Lemma rolling_mean_ordered window center mp s1 s2 :
  Forall2 bounds_ordered s1 s2 →
  Forall2 bounds_ordered (rolling_apply mean window center mp s1)
                         (rolling_apply mean window center mp s2).
Proof.
  intros H. unfold rolling_apply. rewrite (Forall2_length _ _ _ H).
  apply Forall2_fmap, Forall_Forall2_diag, Forall_forall. intros i _.
  pose proof (observations_ordered _ _ (window_at_Forall2 window center s1 s2 i H)) as Ho.
  rewrite (Forall2_length _ _ _ Ho).
  case_decide; cbn; [by apply mean_mono | done].
Qed.

Lemma zip_with_fmap_same {A B C D} (f : B → C → D) (g1 : A → B) (g2 : A → C) l :
  zip_with f (g1 <$> l) (g2 <$> l) = (λ x, f (g1 x) (g2 x)) <$> l.
Proof. induction l as [|x l IH]; cbn; [done | by rewrite IH]. Qed.

(** The raw bounds of a position, from the observations of its window. *)
Lemma raw_bounds_ordered a obs :
  0 <= a → obs ≠ [] →
  quantile (1#4) obs - a * (quantile (3#4) obs - quantile (1#4) obs)
  <= quantile (3#4) obs + a * (quantile (3#4) obs - quantile (1#4) obs).
Proof.
  intros Ha Hne. pose proof (quantile_quartiles obs Hne) as Hq.
  assert (0 <= a * (quantile (3#4) obs - quantile (1#4) obs)) as Hm.
  { apply Qmult_le_0_compat; lra. }
  lra.
Qed.

Lemma col_raw_ordered a n xs :
  0 <= a → Forall2 bounds_ordered (col_low_raw a n xs) (col_up_raw a n xs).
Proof.
  intros Ha.
  unfold col_low_raw, col_up_raw, col_iqr, col_q25, col_q75.
  unfold rolling_quantile, rolling_apply, series_sub, series_add, series_scale.
  rewrite !zip_with_fmap_same, <- !list_fmap_compose, !zip_with_fmap_same.
  apply Forall2_fmap, Forall_Forall2_diag, Forall_forall. intros i _. cbn.
  case_decide as Hd; cbn; [|done].
  apply raw_bounds_ordered; [done|].
  intros Hnil. rewrite Hnil in Hd. cbn in Hd. lia.
Qed.

Lemma col_ordered a n xs :
  0 <= a → Forall2 bounds_ordered (col_low a n xs) (col_up a n xs).
Proof. intros Ha. by apply rolling_mean_ordered, col_raw_ordered. Qed.


(** ** Reading the annotated frames *)

Lemma column_of_insert h t r df key vs :
  columns df !! key = Some (Num vs) →
  column_of (mkWorld (<[r := df]> h) t) r key = Some vs.
Proof.
  intros H. unfold column_of. cbn [heap]. rewrite lookup_insert_eq. cbn.
  by rewrite H.
Qed.

Lemma annotated_low a n xs df :
  columns (annotated a n xs df) !! "low" = Some (Num (col_low a n xs)).
Proof. unfold annotated. lookup_col. Qed.

Lemma annotated_up a n xs df :
  columns (annotated a n xs df) !! "up" = Some (Num (col_up a n xs)).
Proof. unfold annotated. lookup_col. Qed.

Lemma annotated_iqr a n xs df :
  columns (annotated a n xs df) !! "iqr" = Some (Num (col_iqr n xs)).
Proof. unfold annotated. lookup_col. Qed.

Lemma annotated_q75 a n xs df :
  columns (annotated a n xs df) !! "q75" = Some (Num (col_q75 n xs)).
Proof. unfold annotated. lookup_col. Qed.

Lemma annotated_q25 a n xs df :
  columns (annotated a n xs df) !! "q25" = Some (Num (col_q25 n xs)).
Proof. unfold annotated. lookup_col. Qed.

Lemma annotated_raw_low a n xs df :
  columns (annotated_raw a n xs df) !! "low" = Some (Num (col_low_raw a n xs)).
Proof. unfold annotated_raw. lookup_col. Qed.

Lemma annotated_raw_up a n xs df :
  columns (annotated_raw a n xs df) !! "up" = Some (Num (col_up_raw a n xs)).
Proof. unfold annotated_raw. lookup_col. Qed.

Lemma annotated_raw_iqr a n xs df :
  columns (annotated_raw a n xs df) !! "iqr" = Some (Num (col_iqr n xs)).
Proof. unfold annotated_raw. lookup_col. Qed.

Lemma annotated_raw_q75 a n xs df :
  columns (annotated_raw a n xs df) !! "q75" = Some (Num (col_q75 n xs)).
Proof. unfold annotated_raw. lookup_col. Qed.

Lemma annotated_raw_q25 a n xs df :
  columns (annotated_raw a n xs df) !! "q25" = Some (Num (col_q25 n xs)).
Proof. unfold annotated_raw. lookup_col. Qed.

Lemma annotated_raw_other a n xs df k :
  k ∉ derived_columns → columns (annotated_raw a n xs df) !! k = columns df !! k.
Proof.
  intros (N1 & N2 & N3 & N4 & N5)%not_derived. unfold annotated_raw. lookup_col.
Qed.

Lemma annotated_other a n xs df k :
  k ∉ derived_columns → columns (annotated a n xs df) !! k = columns df !! k.
Proof.
  intros (N1 & N2 & N3 & N4 & N5)%not_derived. unfold annotated. lookup_col.
Qed.

Lemma annotated_ctr_low df :
  columns (annotated_ctr df) !! "low" = Some (Num (replicate (nrows df) (Some (19#100)))).
Proof. unfold annotated_ctr. lookup_col. Qed.

Lemma annotated_ctr_up df :
  columns (annotated_ctr df) !! "up" = Some (Num (replicate (nrows df) (Some (23#100)))).
Proof. unfold annotated_ctr. lookup_col. Qed.

Lemma annotated_ctr_other df k :
  k ∉ ["up"; "low"] → columns (annotated_ctr df) !! k = columns df !! k.
Proof.
  intros H. unfold annotated_ctr.
  assert (k ≠ "up" ∧ k ≠ "low") as [N1 N2].
  { split; intros Hk; apply H; rewrite Hk;
      repeat first [left; reflexivity | right]; left. }
  lookup_col.
Qed.

Lemma derived_up_low metric :
  metric ∉ derived_columns → metric ≠ "up" ∧ metric ≠ "low".
Proof. intros (_ & _ & _ & N4 & N5)%not_derived. done. Qed.

(** A frame that is assigned in place. *)
Lemma in_place assigned o h t r df df' :
  h !! r = Some df →
  (∀ v r', o = Ok (v, r') → r' = r) →
  nrows df' = nrows df →
  (∀ k, k ∉ assigned → columns df' !! k = columns df !! k) →
  (∀ k, k ∈ ["low"; "up"] → is_Some (columns df' !! k)) →
  annotates_in_place assigned (o, mkWorld (<[r := df']> h) t) (mkWorld h t) r.
Proof.
  intros Hr Ho Hn Hk Hb. unfold annotates_in_place. cbn [fst snd heap trace].
  split; [done|]. split; [done|]. split.
  { rewrite dom_insert_L. apply subseteq_union_1_L, singleton_subseteq_l.
    by apply elem_of_dom_2 in Hr. }
  split.
  { intros r2 Hne. by rewrite lookup_insert_ne. }
  exists df, df'. by rewrite lookup_insert_eq.
Qed.

Lemma judge_ref r vs lows ups v r' : judge r vs lows ups = Ok (v, r') → r' = r.
Proof.
  unfold judge. intros H.
  destruct (last vs); [|done]. destruct (last lows) as [l|]; [|done].
  destruct (cell_ltb _ l); [congruence|].
  destruct (last ups) as [u|]; [|done].
  destruct (cell_gtb _ u); congruence.
Qed.

(** ** The verdict *)



(** C8.  The verdict of the fixed strategy is a function of the latest
    value: two series with the same last value get the same verdict. *)
Theorem check_anomaly_ctr_last_only
    h1 t1 r1 df1 metric1 xs1 h2 t2 r2 df2 metric2 xs2 :
  h1 !! r1 = Some df1 → columns df1 !! metric1 = Some (Num xs1) →
  metric1 ∉ derived_columns → nrows df1 = length xs1 →
  h2 !! r2 = Some df2 → columns df2 !! metric2 = Some (Num xs2) →
  metric2 ∉ derived_columns → nrows df2 = length xs2 →
  last xs1 = last xs2 →
  is_alert_of (check_anomaly_ctr r1 metric1 (mkWorld h1 t1))
  = is_alert_of (check_anomaly_ctr r2 metric2 (mkWorld h2 t2)).
Proof.
  intros Hr1 Hm1 [N1 N1']%derived_up_low Hn1 Hr2 Hm2 [N2 N2']%derived_up_low Hn2 Hlast.
  rewrite (check_anomaly_ctr_run h1 t1 r1 df1 metric1 xs1) by done.
  rewrite (check_anomaly_ctr_run h2 t2 r2 df2 metric2 xs2) by done.
  unfold is_alert_of. cbn [fst].
  destruct (last xs2) as [x|] eqn:Hx2.
  - destruct (last_of_length (replicate (nrows df1) (Some (19#100))) xs1 x) as [l1 Hl1];
      [by rewrite length_replicate | done |].
    destruct (last_of_length (replicate (nrows df1) (Some (23#100))) xs1 x) as [u1 Hu1];
      [by rewrite length_replicate | done |].
    destruct (last_of_length (replicate (nrows df2) (Some (19#100))) xs2 x) as [l2 Hl2];
      [by rewrite length_replicate | done |].
    destruct (last_of_length (replicate (nrows df2) (Some (23#100))) xs2 x) as [u2 Hu2];
      [by rewrite length_replicate | done |].
    rewrite (judge_verdict r1 xs1 _ _ x l1 u1) by done.
    rewrite (judge_verdict r2 xs2 _ _ x l2 u2) by done.
    apply last_replicate_Some in Hl1, Hu1, Hl2, Hu2. by subst.
  - unfold judge. by rewrite Hlast, Hx2.
Qed.

(** C10.  On a series without observations both estimators raise the
    index error of [iloc[-1]] (the adaptive one for a window of at least
    one observation, which the smoothing accepts); no verdict is
    returned. *)
Theorem empty_series_raises h t r df metric a n :
  h !! r = Some df →
  columns df !! metric = Some (Num []) →
  metric ∉ derived_columns →
  (1 ≤ n)%nat →
  (check_anomaly r metric a n (mkWorld h t)).1 = Raise IndexError
  ∧ (check_anomaly_ctr r metric (mkWorld h t)).1 = Raise IndexError.
Proof.
  intros Hr Hm Hd Hwin. destruct (derived_up_low metric Hd) as [N1 N2]. split.
  - by rewrite (check_anomaly_run h t r df metric a n []).
  - by rewrite (check_anomaly_ctr_run h t r df metric []).
Qed.

(** C3.  The series [10, 12, 11, 13, 90, 91] with a window of 5 and a
    spread of 3: the adaptive estimator returns [is_alert = 1]. *)
Theorem scenario_alerts h t r df metric :
  h !! r = Some df →
  columns df !! metric = Some (Num scenario) →
  metric ∉ derived_columns →
  (check_anomaly r metric 3 5 (mkWorld h t)).1 = Ok (1%Z, r).
Proof.
  intros Hr Hm Hd.
  rewrite (check_anomaly_run h t r df metric 3 5 scenario) by (done || lia).
  cbn [fst]. vm_compute. reflexivity.
Qed.

(** C4.  With a positive spread factor the envelope of either strategy has
    [low[i] <= up[i]] at every position where both bounds are defined. *)
Theorem envelope_low_le_up h t r df metric xs a n i l u :
  h !! r = Some df →
  columns df !! metric = Some (Num xs) →
  metric ∉ derived_columns →
  0 < a →
  (cell_of (check_anomaly r metric a n (mkWorld h t)).2 r "low" i = Some (Some l) →
   cell_of (check_anomaly r metric a n (mkWorld h t)).2 r "up" i = Some (Some u) →
   l <= u)
  ∧ (cell_of (check_anomaly_ctr r metric (mkWorld h t)).2 r "low" i = Some (Some l) →
     cell_of (check_anomaly_ctr r metric (mkWorld h t)).2 r "up" i = Some (Some u) →
     l <= u).
Proof.
  intros Hr Hm Hd Ha. destruct (derived_up_low metric Hd) as [N1 N2].
  assert (0 <= a) as Ha' by lra. split.
  - destruct (decide (n = 0)%nat) as [->|Hn].
    + rewrite (check_anomaly_run_zero h t r df metric a xs) by done. cbn [snd].
      unfold cell_of.
      rewrite (column_of_insert _ _ _ _ _ _ (annotated_raw_low a 0 xs df)).
      rewrite (column_of_insert _ _ _ _ _ _ (annotated_raw_up a 0 xs df)).
      cbn. intros Hl Hu.
      exact (Forall2_lookup_lr _ _ _ _ _ _ (col_raw_ordered a 0 xs Ha') Hl Hu).
    + rewrite (check_anomaly_run h t r df metric a n xs) by (done || lia). cbn [snd].
      unfold cell_of.
      rewrite (column_of_insert _ _ _ _ _ _ (annotated_low a n xs df)).
      rewrite (column_of_insert _ _ _ _ _ _ (annotated_up a n xs df)).
      cbn. intros Hl Hu.
      exact (Forall2_lookup_lr _ _ _ _ _ _ (col_ordered a n xs Ha') Hl Hu).
  - rewrite (check_anomaly_ctr_run h t r df metric xs) by done. cbn [snd].
    unfold cell_of.
    rewrite (column_of_insert _ _ _ _ _ _ (annotated_ctr_low df)).
    rewrite (column_of_insert _ _ _ _ _ _ (annotated_ctr_up df)).
    cbn. intros Hl Hu.
    apply lookup_replicate in Hl as [Hl _], Hu as [Hu _].
    injection Hl as Hl. injection Hu as Hu. subst l u. lra.
Qed.


Lemma check_anomaly_ctr_last_only_witness :
  is_alert_of (check_anomaly_ctr 1%positive "ctr" (mkWorld {[ 1%positive := snapshot "ctr" ctr_a ]} []))
  = is_alert_of (check_anomaly_ctr 1%positive "ctr" (mkWorld {[ 1%positive := snapshot "ctr" ctr_b ]} [])).
Proof.
  apply (check_anomaly_ctr_last_only
           {[ 1%positive := snapshot "ctr" ctr_a ]} [] 1%positive (snapshot "ctr" ctr_a) "ctr" ctr_a
           {[ 1%positive := snapshot "ctr" ctr_b ]} [] 1%positive (snapshot "ctr" ctr_b) "ctr" ctr_b).
  - vm_compute; reflexivity.
  - vm_compute; reflexivity.
  - compute_done.
  - reflexivity.
  - vm_compute; reflexivity.
  - vm_compute; reflexivity.
  - compute_done.
  - reflexivity.
  - reflexivity.
Defined.

Lemma empty_series_raises_witness :
  (check_anomaly 1%positive "views" 3 5 (mkWorld empty_heap [])).1 = Raise IndexError
  ∧ (check_anomaly_ctr 1%positive "views" (mkWorld empty_heap [])).1 = Raise IndexError.
Proof.
  apply (empty_series_raises empty_heap [] 1%positive empty_frame "views" 3 5).
  - vm_compute; reflexivity.
  - vm_compute; reflexivity.
  - compute_done.
  - lia.
Defined.

Lemma scenario_alerts_witness :
  (check_anomaly 1%positive "views" 3 5 (mkWorld sample_heap [])).1 = Ok (1%Z, 1%positive).
Proof.
  apply (scenario_alerts sample_heap [] 1%positive sample_frame "views").
  - vm_compute; reflexivity.
  - vm_compute; reflexivity.
  - compute_done.
Defined.

Lemma envelope_low_le_up_witness :
  cell_of (check_anomaly 1%positive "views" 3 5 (mkWorld sample_heap [])).2
          1%positive "low" 5 = Some (Some 5)
  ∧ cell_of (check_anomaly 1%positive "views" 3 5 (mkWorld sample_heap [])).2
            1%positive "up" 5 = Some (Some 19)
  ∧ 5 <= 19.
Proof.
  assert (cell_of (check_anomaly 1%positive "views" 3 5 (mkWorld sample_heap [])).2
                  1%positive "low" 5 = Some (Some 5)) as Hl by (vm_compute; reflexivity).
  assert (cell_of (check_anomaly 1%positive "views" 3 5 (mkWorld sample_heap [])).2
                  1%positive "up" 5 = Some (Some 19)) as Hu by (vm_compute; reflexivity).
  split; [exact Hl|]. split; [exact Hu|].
  refine (proj1 (envelope_low_le_up sample_heap [] 1%positive sample_frame "views"
                   scenario 3 5 5%nat 5 19 _ _ _ _) Hl Hu).
  - vm_compute; reflexivity.
  - vm_compute; reflexivity.
  - compute_done.
  - reflexivity.
Defined.

(** ** The frame of the caller *)

(** C9, as the code has it.  Both estimators assign their columns on the
    frame of the caller, in place, and return the reference they were
    given: no frame is allocated, the other frames of the store are not
    touched, and in the caller's frame the index and every column that is
    not assigned (so [ts], [date], [hm] and the metric) are as before. *)
Theorem estimators_annotate_in_place h t r df metric xs a n :
  h !! r = Some df →
  columns df !! metric = Some (Num xs) →
  metric ∉ derived_columns →
  (annotates_in_place derived_columns
     (check_anomaly r metric a n (mkWorld h t)) (mkWorld h t) r
   ∧ annotates_in_place ["up"; "low"]
       (check_anomaly_ctr r metric (mkWorld h t)) (mkWorld h t) r)
  ∧ (∀ k, k ∈ ["ts"; "date"; "hm"; metric] → k ∉ derived_columns).
Proof.
  intros Hr Hm Hd. destruct (derived_up_low metric Hd) as [N1 N2].
  split; [split|].
  - destruct (decide (n = 0)%nat) as [->|Hn].
    + rewrite (check_anomaly_run_zero h t r df metric a xs) by done.
      apply in_place with (df := df); try done.
      * intros k Hk. by apply annotated_raw_other.
      * intros k Hk. apply elem_of_cons in Hk as [->|Hk].
        { rewrite annotated_raw_low. by eexists. }
        apply list_elem_of_singleton in Hk as ->.
        rewrite annotated_raw_up. by eexists.
    + rewrite (check_anomaly_run h t r df metric a n xs) by (done || lia).
      apply in_place with (df := df); try done.
      * intros v r'. apply judge_ref.
      * intros k Hk. by apply annotated_other.
      * intros k Hk. apply elem_of_cons in Hk as [->|Hk].
        { rewrite annotated_low. by eexists. }
        apply list_elem_of_singleton in Hk as ->.
        rewrite annotated_up. by eexists.
  - rewrite (check_anomaly_ctr_run h t r df metric xs) by done.
    apply in_place with (df := df); try done.
    + intros v r'. apply judge_ref.
    + intros k Hk. by apply annotated_ctr_other.
    + intros k Hk. apply elem_of_cons in Hk as [->|Hk].
      { rewrite annotated_ctr_low. by eexists. }
      apply list_elem_of_singleton in Hk as ->.
      rewrite annotated_ctr_up. by eexists.
  - intros k Hk.
    repeat (apply elem_of_cons in Hk as [->|Hk]; [compute_done|]).
    apply list_elem_of_singleton in Hk as ->. done.
Qed.

Lemma estimators_annotate_in_place_witness :
  (annotates_in_place derived_columns
     (check_anomaly 1%positive "views" 3 5 (mkWorld sample_heap [])) (mkWorld sample_heap []) 1%positive
   ∧ annotates_in_place ["up"; "low"]
       (check_anomaly_ctr 1%positive "views" (mkWorld sample_heap [])) (mkWorld sample_heap []) 1%positive)
  ∧ (∀ k, k ∈ ["ts"; "date"; "hm"; "views"] → k ∉ derived_columns).
Proof.
  apply (estimators_annotate_in_place sample_heap [] 1%positive sample_frame "views" scenario 3 5).
  - vm_compute; reflexivity.
  - vm_compute; reflexivity.
  - compute_done.
Defined.

(** C9, as it is stated, fails: on the scenario the estimator returns the
    very reference it was given, and the frame behind it has changed. *)
Lemma estimator_mutates_caller_frame :
  (check_anomaly 1%positive "views" 3 5 sample_world).1 = Ok (1%Z, 1%positive)
  ∧ heap (check_anomaly 1%positive "views" 3 5 sample_world).2 !! 1%positive
    ≠ heap sample_world !! 1%positive
  ∧ ¬ returns_copy (check_anomaly 1%positive "views" 3 5 sample_world) sample_world 1%positive.
Proof.
  assert ((check_anomaly 1%positive "views" 3 5 sample_world).1 = Ok (1%Z, 1%positive)) as Hres
    by (vm_compute; reflexivity).
  split; [exact Hres|]. split.
  - intros H.
    apply (f_equal (λ o : option DataFrame, df ← o; columns df !! "up")) in H.
    vm_compute in H. discriminate H.
  - intros H. destruct (H _ _ Hres) as [Hne _]. done.
Qed.

(** ** The envelope, position by position *)

Lemma rolling_apply_lookup agg window center mp s i :
  (i < length s)%nat →
  rolling_apply agg window center mp s !! i
  = Some (let obs := observations (window_at window center s i) in
          if decide (mp ≤ length obs ∧ 0 < length obs)%nat
          then Some (agg obs) else NaN).
Proof.
  intros Hi. unfold rolling_apply.
  rewrite list_lookup_fmap, lookup_seq_lt by done. reflexivity.
Qed.

(** The lagged window: the [n] values before [i], or a window that still
    holds the NaN the shift put in front. *)
Lemma window_at_shift1 n xs i :
  (1 ≤ n)%nat → (i < length xs)%nat →
  window_at n false (shift1 xs) i
  = if decide (n ≤ i)%nat then take n (drop (i - n) xs) else NaN :: take i xs.
Proof.
  intros Hn Hi. unfold window_at. rewrite length_shift1.
  unfold window_start, window_end, window_offset, clip.
  destruct xs as [|x xs]; [cbn in Hi; lia|].
  unfold shift1. set (l := x :: xs) in *.
  case_decide as Hni.
  - replace (Z.to_nat (Z.max 0 (Z.min (Z.of_nat (length l))
               (Z.of_nat i + 1 + 0 - Z.of_nat n)))) with (S (i - n)) by lia.
    replace (Z.to_nat (_ - _)) with n by lia.
    cbn [drop]. rewrite skipn_firstn_comm, take_take. f_equal. lia.
  - replace (Z.to_nat (Z.max 0 (Z.min (Z.of_nat (length l))
               (Z.of_nat i + 1 + 0 - Z.of_nat n)))) with 0%nat by lia.
    replace (Z.to_nat (_ - _)) with (S i) by lia.
    cbn [drop take]. rewrite take_take. do 2 f_equal. lia.
Qed.

Lemma observations_length w : (length (observations w) ≤ length w)%nat.
Proof.
  unfold observations. induction w as [|[q|] w IH]; cbn; lia.
Qed.

Lemma observations_mapM w :
  (mapM id w = Some (observations w) ∧ length (observations w) = length w)
  ∨ (mapM id w = None ∧ (length (observations w) < length w)%nat).
Proof.
  unfold observations. induction w as [|[q|] w IH]; cbn.
  - by left.
  - destruct IH as [[-> Hlen]|[-> Hlen]]; cbn; [left | right]; split; try done; lia.
  - right. split; [done|]. pose proof (observations_length w).
    unfold observations in *. lia.
Qed.

Lemma rolling_quantile_shift_lookup n q xs i :
  (1 ≤ n)%nat → (i < length xs)%nat →
  rolling_quantile n q (shift1 xs) !! i
  = Some (Spec.percentile q (Spec.preceding n xs i)).
Proof.
  intros Hn Hi. unfold rolling_quantile.
  rewrite rolling_apply_lookup by (by rewrite length_shift1).
  f_equal. cbv zeta. rewrite window_at_shift1 by done.
  unfold Spec.percentile, Spec.preceding.
  destruct (decide (n ≤ i)%nat) as [Hni|Hni].
  - assert (length (take n (drop (i - n) xs)) = n) as Hlen.
    { rewrite length_take, length_drop. lia. }
    destruct (observations_mapM (take n (drop (i - n) xs))) as [[-> Ho]|[-> Ho]]; cbn.
    + rewrite decide_True; [done | lia].
    + rewrite decide_False; [done | lia].
  - rewrite decide_False; [done|].
    pose proof (observations_length (NaN :: take i xs)) as Ho.
    assert (length (observations (NaN :: take i xs)) ≤ i)%nat.
    { change (observations (NaN :: take i xs)) with (observations (take i xs)).
      pose proof (observations_length (take i xs)). rewrite length_take in *. lia. }
    lia.
Qed.

Lemma col_q25_lookup n xs i :
  (1 ≤ n)%nat → (i < length xs)%nat → col_q25 n xs !! i = Some (Spec.q25 n xs i).
Proof. apply rolling_quantile_shift_lookup. Qed.

Lemma col_q75_lookup n xs i :
  (1 ≤ n)%nat → (i < length xs)%nat → col_q75 n xs !! i = Some (Spec.q75 n xs i).
Proof. apply rolling_quantile_shift_lookup. Qed.

Lemma col_iqr_lookup n xs i :
  (1 ≤ n)%nat → (i < length xs)%nat → col_iqr n xs !! i = Some (Spec.iqr n xs i).
Proof.
  intros Hn Hi. unfold col_iqr, series_sub.
  rewrite lookup_zip_with, col_q75_lookup, col_q25_lookup by done. cbn.
  unfold Spec.iqr. by destruct (Spec.q75 n xs i), (Spec.q25 n xs i).
Qed.

Lemma col_up_raw_lookup a n xs i :
  (1 ≤ n)%nat → (i < length xs)%nat →
  col_up_raw a n xs !! i = Some (Spec.up_raw a n xs i).
Proof.
  intros Hn Hi. unfold col_up_raw, series_add, series_scale.
  rewrite lookup_zip_with, list_lookup_fmap, col_q75_lookup, col_iqr_lookup by done.
  cbn. unfold Spec.up_raw. by destruct (Spec.q75 n xs i), (Spec.iqr n xs i).
Qed.

Lemma col_low_raw_lookup a n xs i :
  (1 ≤ n)%nat → (i < length xs)%nat →
  col_low_raw a n xs !! i = Some (Spec.low_raw a n xs i).
Proof.
  intros Hn Hi. unfold col_low_raw, series_sub, series_scale.
  rewrite lookup_zip_with, list_lookup_fmap, col_q25_lookup, col_iqr_lookup by done.
  cbn. unfold Spec.low_raw. by destruct (Spec.q25 n xs i), (Spec.iqr n xs i).
Qed.

Lemma take_drop_tabulate {A} (l : list A) (f : nat → A) s c :
  (∀ j, (j < length l)%nat → l !! j = Some (f j)) →
  (s + c ≤ length l)%nat →
  take c (drop s l) = f <$> seq s c.
Proof.
  intros Hf Hc. apply list_eq. intros j.
  rewrite list_lookup_fmap.
  destruct (decide (j < c)%nat) as [Hj|Hj].
  - rewrite lookup_take_lt, lookup_drop, lookup_seq_lt by done.
    cbn. apply Hf. lia.
  - rewrite lookup_take_ge, lookup_seq_ge by lia. done.
Qed.

Lemma omap_id_fmap {A B} (f : A → option B) (l : list A) :
  omap id (f <$> l) = omap f l.
Proof.
  induction l as [|x l IH]; cbn; [done|]. rewrite IH. by destruct (f x).
Qed.

Lemma half_split (n : nat) :
  ((Z.of_nat n - 1) / 2 = Z.of_nat n - 1 - Z.of_nat n / 2)%Z
  ∧ (0 ≤ Z.of_nat n / 2 ≤ Z.of_nat n)%Z.
Proof. Z.div_mod_to_equations. lia. Qed.

(** The centred window of exactly [n] positions. *)
Lemma centered_mean_lookup n raw (f : nat → cell) xs i :
  length raw = length xs →
  (∀ j, (j < length raw)%nat → raw !! j = Some (f j)) →
  (i < length raw)%nat →
  centered_mean n raw !! i = Some (Spec.smooth_width n xs f i).
Proof.
  intros Hlen Hf Hi. unfold centered_mean.
  rewrite rolling_apply_lookup by done. f_equal. cbv zeta.
  unfold Spec.smooth_width, Spec.average. rewrite <- Hlen.
  unfold window_at, window_start, window_end, window_offset, clip.
  set (lo := Z.to_nat (Z.max 0 (Z.of_nat i - Z.of_nat n / 2))).
  set (cnt := Z.to_nat (Z.min (Z.of_nat (length raw) - 1)
                          (Z.of_nat i + (Z.of_nat n - 1) / 2) + 1 - Z.of_nat lo)).
  replace (Z.to_nat (Z.max 0 (Z.min (Z.of_nat (length raw))
             (Z.of_nat i + 1 + (Z.of_nat n - 1) / 2 - Z.of_nat n))))
    with lo by (unfold lo; destruct (half_split n) as [-> ?]; lia).
  replace (Z.to_nat (_ - _)) with cnt
    by (unfold cnt, lo; destruct (half_split n) as [-> ?]; lia).
  rewrite (take_drop_tabulate raw f lo cnt)
    by (done || (unfold cnt, lo; destruct (half_split n) as [-> ?]; lia)).
  unfold observations. rewrite omap_id_fmap.
  destruct (omap f (seq lo cnt)) as [|y ys]; cbn.
  - rewrite decide_False; [done | lia].
  - rewrite decide_True; [done | lia].
Qed.

Lemma col_up_lookup a n xs i :
  (1 ≤ n)%nat → (i < length xs)%nat → col_up a n xs !! i = Some (Spec.up_width a n xs i).
Proof.
  intros Hn Hi. unfold col_up, Spec.up_width.
  apply centered_mean_lookup.
  - apply length_col_up_raw.
  - intros j Hj. apply col_up_raw_lookup; [done|]. by rewrite length_col_up_raw in Hj.
  - by rewrite length_col_up_raw.
Qed.

Lemma col_low_lookup a n xs i :
  (1 ≤ n)%nat → (i < length xs)%nat → col_low a n xs !! i = Some (Spec.low_width a n xs i).
Proof.
  intros Hn Hi. unfold col_low, Spec.low_width.
  apply centered_mean_lookup.
  - apply length_col_low_raw.
  - intros j Hj. apply col_low_raw_lookup; [done|]. by rewrite length_col_low_raw in Hj.
  - by rewrite length_col_low_raw.
Qed.

Lemma cell_equiv_refl c : cell_equiv c c.
Proof. destruct c; cbn; [reflexivity | done]. Qed.

Lemma cell_matches_lookup (col : series) w r key i c :
  column_of w r key = Some col → col !! i = Some c →
  cell_matches (cell_of w r key i) c.
Proof.
  intros Hc Hi. exists c. unfold cell_of. rewrite Hc. cbn.
  split; [done | apply cell_equiv_refl].
Qed.

(** For an odd window the two readings of the centred window agree. *)
Lemma smooth_odd n xs raw i :
  Nat.Odd n → Spec.smooth n xs raw i = Spec.smooth_width n xs raw i.
Proof.
  intros [k ->]. unfold Spec.smooth, Spec.smooth_width. do 2 f_equal.
  Z.div_mod_to_equations. lia.
Qed.

(** C1, as the code has it.  After [check_anomaly] with a window of at
    least 1, the frame holds at every position [i]: in [q25] and [q75] the
    two percentiles of the [window_size] values before [i], in [iqr] their
    difference, and in [low] and [up] the average of the raw bounds
    [q25 - a*iqr] and [q75 + a*iqr] that are defined over the [window_size]
    positions from [i - w/2] to [i + (w-1)/2], clipped at the series edges
    and undefined without one sample.  For an odd window, the default 5
    among them, these are the positions from [i - w/2] to [i + w/2]. *)
Theorem envelope_as_computed h t r df metric xs a n :
  h !! r = Some df →
  columns df !! metric = Some (Num xs) →
  metric ∉ derived_columns →
  (1 ≤ n)%nat →
  envelope_matches (Spec.low_width a n xs) (Spec.up_width a n xs) n xs
    (check_anomaly r metric a n (mkWorld h t)).2 r
  ∧ (Nat.Odd n →
     envelope_matches (Spec.low a n xs) (Spec.up a n xs) n xs
       (check_anomaly r metric a n (mkWorld h t)).2 r).
Proof.
  intros Hr Hm Hd Hn.
  rewrite (check_anomaly_run h t r df metric a n xs) by done. cbn [snd].
  assert (envelope_matches (Spec.low_width a n xs) (Spec.up_width a n xs) n xs
            (mkWorld (<[r := annotated a n xs df]> h) t) r) as Hw.
  { intros i Hi. repeat split.
    - eapply cell_matches_lookup;
        [apply column_of_insert, annotated_q25 | by apply col_q25_lookup].
    - eapply cell_matches_lookup;
        [apply column_of_insert, annotated_q75 | by apply col_q75_lookup].
    - eapply cell_matches_lookup;
        [apply column_of_insert, annotated_iqr | by apply col_iqr_lookup].
    - eapply cell_matches_lookup;
        [apply column_of_insert, annotated_low | by apply col_low_lookup].
    - eapply cell_matches_lookup;
        [apply column_of_insert, annotated_up | by apply col_up_lookup]. }
  split; [exact Hw|].
  intros Hodd i Hi. unfold Spec.low, Spec.up. rewrite !smooth_odd by done.
  by apply Hw.
Qed.

Lemma envelope_as_computed_witness :
  envelope_matches (Spec.low_width 3 5 scenario) (Spec.up_width 3 5 scenario) 5 scenario
    (check_anomaly 1%positive "views" 3 5 (mkWorld sample_heap [])).2 1%positive
  ∧ envelope_matches (Spec.low 3 5 scenario) (Spec.up 3 5 scenario) 5 scenario
      (check_anomaly 1%positive "views" 3 5 (mkWorld sample_heap [])).2 1%positive.
Proof.
  destruct (envelope_as_computed sample_heap [] 1%positive sample_frame "views" scenario 3 5)
    as [Hw Hodd].
  - vm_compute; reflexivity.
  - vm_compute; reflexivity.
  - compute_done.
  - lia.
  - split; [exact Hw|]. apply Hodd. exists 2%nat. reflexivity.
Defined.

(** C1, as it is stated, fails for an even window.  With a window of 2
    the code averages the raw upper bounds of positions 2 and 3 at
    position 3 (39/8); from [i - 1] to [i + 1] the average is over the
    positions 2, 3 and 4 (91/12). *)
Lemma even_window_not_symmetric :
  cell_matches
    (cell_of (check_anomaly 1%positive "views" 3 2 (mkWorld doubling_heap [])).2
             1%positive "up" 3) (Some (39#8))
  ∧ cell_equiv (Spec.up 3 2 doubling 3) (Some (91#12))
  ∧ ¬ envelope_matches (Spec.low 3 2 doubling) (Spec.up 3 2 doubling) 2 doubling
        (check_anomaly 1%positive "views" 3 2 (mkWorld doubling_heap [])).2 1%positive.
Proof.
  assert (∃ q, cell_of (check_anomaly 1%positive "views" 3 2 (mkWorld doubling_heap [])).2
                 1%positive "up" 3 = Some (Some q) ∧ q == 39#8) as (q & Hq & Hq8).
  { eexists. split; [vm_compute; reflexivity | reflexivity]. }
  assert (∃ p, Spec.up 3 2 doubling 3 = Some p ∧ p == 91#12) as (p & Hp & Hp12).
  { eexists. split; [vm_compute; reflexivity | reflexivity]. }
  split; [|split].
  - exists (Some q). by split.
  - rewrite Hp. exact Hp12.
  - intros H. destruct (H 3%nat) as (_ & _ & _ & _ & c & Hc & He); [cbn; lia|].
    rewrite Hq in Hc. injection Hc as <-. rewrite Hp in He. cbn in He.
    rewrite Hq8, Hp12 in He. discriminate He.
Qed.

(** ** The alert text *)

(** C6, as the code has it.  With a latest value of 80 after 100 the
    change is [1 - 80/100 = 0.20], and the text shows [20.00%]. *)
Theorem percent_change_80_100 :
  (∃ q, percent_change (Some 80) (Some 100) = Fin q
        ∧ q == 1 - 80 / 100 ∧ q == 20#100)
  ∧ format_2pct (percent_change (Some 80) (Some 100)) = "20.00%"
  ∧ ∀ metric link,
      alert_text metric (Some 80) (percent_change (Some 80) (Some 100)) link
      = "Метрика " +:+ capitalize metric +:+ ":" +:+ newline
        +:+ "Текущее значение 80.00" +:+ newline
        +:+ "Отклонение от предыдущего значения 20.00%" +:+ newline
        +:+ "Дашборд с метриками: " +:+ link +:+ newline.
Proof.
  split; [|split].
  - eexists. split; [reflexivity|]. split; reflexivity.
  - vm_compute. reflexivity.
  - intros metric link. unfold alert_text.
    replace (format_cell_2f (Some 80)) with "80.00" by (vm_compute; reflexivity).
    replace (format_2pct (percent_change (Some 80) (Some 100))) with "20.00%"
      by (vm_compute; reflexivity).
    reflexivity.
Qed.

(** C6, as it is stated, fails: the change is not -25%, and the text does
    not show [-25.00%]. *)
Lemma percent_change_not_minus_25 :
  ¬ (∃ q, percent_change (Some 80) (Some 100) = Fin q ∧ q == - (25#100))
  ∧ format_2pct (percent_change (Some 80) (Some 100)) ≠ "-25.00%".
Proof.
  split.
  - intros (q & Hq & Hq25). injection Hq as <-. discriminate Hq25.
  - vm_compute. discriminate.
Qed.

(** ** The loop of the dispatcher *)

Lemma emit_run ev h t : emit ev (mkWorld h t) = (Ok (), mkWorld h (t ++ [ev])).
Proof. done. Qed.

Lemma pick_lookup cols keys m :
  pick cols keys = Ok m → ∀ k, k ∈ keys → m !! k = cols !! k.
Proof.
  revert m. induction keys as [|k0 keys IH]; intros m Hp k Hk.
  - by apply elem_of_nil in Hk.
  - cbn in Hp. destruct (cols !! k0) as [c|] eqn:Hc; [|done].
    destruct (pick cols keys) as [m'|] eqn:Hp'; [|done].
    injection Hp as <-.
    destruct (decide (k = k0)) as [->|Hne].
    + by rewrite lookup_insert_eq.
    + rewrite lookup_insert_ne by done. apply IH; [done|].
      apply elem_of_cons in Hk as [?|?]; done.
Qed.

Lemma pick_ok cols keys :
  (∀ k, k ∈ keys → is_Some (cols !! k)) → ∃ m, pick cols keys = Ok m.
Proof.
  induction keys as [|k0 keys IH]; intros Hk; cbn.
  - by eexists.
  - destruct (Hk k0) as [c ->]; [by left|].
    destruct IH as [m ->]; [|by eexists].
    intros k Hin. apply Hk. by right.
Qed.

Lemma select_copy_run h t r df keys m :
  h !! r = Some df → pick (columns df) keys = Ok m →
  select_copy r keys (mkWorld h t)
  = (Ok (fresh (dom h)),
     mkWorld (<[fresh (dom h) := mkDataFrame (nrows df) m]> h) t).
Proof.
  intros Hr Hp. unfold select_copy, mbind, M_bind, deref. cbn [heap].
  rewrite Hr, Hp. reflexivity.
Qed.

Lemma fresh_ref_ne (h : gmap ref DataFrame) r df : h !! r = Some df → fresh (dom h) ≠ r.
Proof.
  intros Hr Heq. apply (is_fresh (dom h)). rewrite Heq. by apply elem_of_dom_2 in Hr.
Qed.

(** A turn of the loop for a metric the adaptive estimator does not flag:
    the metric is printed, its copy is annotated, nothing is sent. *)
Lemma alert_step_quiet env data d metric xs m h t :
  h !! data = Some d →
  pick (columns d) ["ts"; "date"; "hm"; metric] = Ok m →
  columns d !! metric = Some (Num xs) →
  metric ≠ "ctr" →
  metric ∉ derived_columns →
  judge (fresh (dom h)) xs (col_low default_a default_n xs) (col_up default_a default_n xs)
  = Ok (0%Z, fresh (dom h)) →
  alert_step env data metric (mkWorld h t)
  = (Ok (),
     mkWorld (<[fresh (dom h) := annotated default_a default_n xs (mkDataFrame (nrows d) m)]> h)
             (t ++ [Printed metric])).
Proof.
  intros Hd Hp Hm Hctr Hder Hj. unfold alert_step.
  rewrite (bind_ok _ _ _ _ _ (emit_run _ _ _)).
  rewrite (bind_ok _ _ _ _ _ (select_copy_run _ _ _ _ _ _ Hd Hp)).
  rewrite decide_False by done.
  erewrite bind_ok.
  2:{ rewrite (check_anomaly_run _ _ _ (mkDataFrame (nrows d) m) metric _ _ xs).
      - rewrite Hj, insert_insert_eq. reflexivity.
      - apply lookup_insert_eq.
      - cbn [columns]. rewrite (pick_lookup _ _ _ Hp); [done|].
        repeat first [apply list_elem_of_here | apply list_elem_of_further].
      - done.
      - unfold default_n. lia. }
  cbn [fst snd]. rewrite decide_False by done. reflexivity.
Qed.

(** ** A history shorter than the window *)

Lemma preceding_short n xs i :
  (length xs ≤ n)%nat → (i < length xs)%nat → Spec.preceding n xs i = None.
Proof. intros Hn Hi. unfold Spec.preceding. rewrite decide_False; [done | lia]. Qed.

Lemma raw_short a n xs i :
  (length xs ≤ n)%nat → (i < length xs)%nat →
  Spec.low_raw a n xs i = None ∧ Spec.up_raw a n xs i = None.
Proof.
  intros Hn Hi.
  unfold Spec.low_raw, Spec.up_raw, Spec.iqr, Spec.q25, Spec.q75.
  by rewrite preceding_short.
Qed.

Lemma omap_seq_None {B} (f : nat → option B) lo cnt :
  (∀ j, (lo ≤ j < lo + cnt)%nat → f j = None) → omap f (seq lo cnt) = [].
Proof.
  revert lo. induction cnt as [|cnt IH]; intros lo Hf; cbn; [done|].
  rewrite Hf by lia. apply IH. intros j Hj. apply Hf. lia.
Qed.

Lemma average_undefined xs raw first last :
  (∀ j, (j < length xs)%nat → raw j = None) → Spec.average xs raw first last = None.
Proof.
  intros Hraw. unfold Spec.average. rewrite omap_seq_None; [done|].
  intros j Hj. apply Hraw. lia.
Qed.

(** Without [n] values before any position, no bound is defined. *)
Lemma bounds_short a n xs i :
  (1 ≤ n)%nat → (length xs ≤ n)%nat → (i < length xs)%nat →
  col_low a n xs !! i = Some NaN ∧ col_up a n xs !! i = Some NaN.
Proof.
  intros H1 Hn Hi.
  rewrite col_low_lookup, col_up_lookup by done.
  unfold Spec.low_width, Spec.up_width, Spec.smooth_width.
  rewrite !average_undefined; [done | |]; intros j Hj; by apply raw_short.
Qed.

Lemma judge_short r a n xs x :
  (1 ≤ n)%nat → (length xs ≤ n)%nat → last xs = Some x →
  judge r xs (col_low a n xs) (col_up a n xs) = Ok (0%Z, r).
Proof.
  intros H1 Hn Hx.
  assert (length xs - 1 < length xs)%nat as Hi.
  { destruct xs; [done | cbn; lia]. }
  destruct (bounds_short a n xs (length xs - 1) H1 Hn Hi) as [Hl Hu].
  rewrite (judge_verdict r xs _ _ x NaN NaN); [by destruct x | done | |].
  - rewrite last_lookup, length_col_low.
    by replace (Nat.pred (length xs)) with (length xs - 1)%nat by lia.
  - rewrite last_lookup, length_col_up.
    by replace (Nat.pred (length xs)) with (length xs - 1)%nat by lia.
Qed.

(** C7, as the code has it.  On a series that is not empty but has no more
    observations than the window, the adaptive estimator raises nothing
    and returns [is_alert = 0]; the turn of the loop for that metric sends
    nothing, leaves the snapshot as it was, and the loop goes on with the
    metrics that remain. *)
Theorem short_history_no_alert env data d metric xs rest h t a n :
  h !! data = Some d →
  (∀ k, k ∈ ["ts"; "date"; "hm"] → is_Some (columns d !! k)) →
  columns d !! metric = Some (Num xs) →
  metric ≠ "ctr" →
  metric ∉ derived_columns →
  (1 ≤ n)%nat →
  (1 ≤ length xs)%nat →
  ((length xs ≤ n)%nat →
   (check_anomaly data metric a n (mkWorld h t)).1 = Ok (0%Z, data))
  ∧ ((length xs ≤ default_n)%nat →
     degrades_gracefully env data metric rest (mkWorld h t)).
Proof.
  intros Hd Hk Hm Hctr Hder Hn Hlen.
  destruct (last xs) as [x|] eqn:Hx.
  2:{ apply last_None in Hx. subst xs. cbn in Hlen. lia. }
  split; intros Hshort.
  - rewrite (check_anomaly_run h t data d metric a n xs) by done.
    cbn [fst]. by apply (judge_short data a n xs x).
  - destruct (pick_ok (columns d) ["ts"; "date"; "hm"; metric]) as [m Hp].
    { intros k Hin. apply elem_of_cons in Hin as [->|Hin]; [apply Hk; by left|].
      apply elem_of_cons in Hin as [->|Hin]; [apply Hk; right; by left|].
      apply elem_of_cons in Hin as [->|Hin]; [apply Hk; right; right; by left|].
      apply list_elem_of_singleton in Hin as ->. by eexists. }
    pose proof (alert_step_quiet env data d metric xs m h t Hd Hp Hm Hctr Hder) as Hstep.
    rewrite (judge_short _ default_a default_n xs x) in Hstep by (done || (unfold default_n; lia)).
    specialize (Hstep eq_refl).
    eexists. split; [exact Hstep|]. cbn [trace heap].
    split; [done|]. split.
    { apply lookup_insert_ne. by eapply fresh_ref_ne. }
    cbn [alert_loop]. by rewrite (bind_ok _ _ _ _ _ Hstep).
Qed.

Lemma short_history_no_alert_witness :
  (check_anomaly 1%positive "views" 3 5 (mkWorld short_heap [])).1 = Ok (0%Z, 1%positive)
  ∧ degrades_gracefully env_ok 1%positive "views" ["likes"] (mkWorld short_heap []).
Proof.
  destruct (short_history_no_alert env_ok 1%positive (snapshot "views" short) "views" short
              ["likes"] short_heap [] 3 5) as [Hest Hloop].
  - vm_compute; reflexivity.
  - intros k Hk.
    apply elem_of_cons in Hk as [->|Hk]; [vm_compute; by eexists|].
    apply elem_of_cons in Hk as [->|Hk]; [vm_compute; by eexists|].
    apply list_elem_of_singleton in Hk as ->. vm_compute; by eexists.
  - vm_compute; reflexivity.
  - discriminate.
  - compute_done.
  - lia.
  - cbn; lia.
  - split; [apply Hest | apply Hloop]; unfold default_n, short; cbn; lia.
Defined.

(** C7, as it is stated, fails on a series without observations: the
    estimator raises, the run stops there, and the metric after it is not
    evaluated. *)
Lemma empty_history_aborts_run :
  (alert_loop env_ok 1%positive ["views"; "likes"]
     (mkWorld {[ 1%positive := no_rows ]} [])).1 = Raise IndexError
  ∧ trace (alert_loop env_ok 1%positive ["views"; "likes"]
             (mkWorld {[ 1%positive := no_rows ]} [])).2 = [Printed "views"]
  ∧ ¬ degrades_gracefully env_ok 1%positive "views" ["likes"]
        (mkWorld {[ 1%positive := no_rows ]} []).
Proof.
  split; [vm_compute; reflexivity|]. split; [vm_compute; reflexivity|].
  intros (w' & Hstep & _).
  apply (f_equal fst) in Hstep. vm_compute in Hstep. discriminate Hstep.
Qed.

(** ** Failures of the collaborators *)

(** The three calls that end a turn: a failure stops the turn where it
    happens, and what was sent before it stays sent. *)
Lemma deliver_run env c msg h t :
  (plt_savefig env c;; bot_sendMessage env msg;; bot_sendPhoto env c) (mkWorld h t)
  = if savefig env c
    then if sendMessage env msg
         then if sendPhoto env c
              then (Ok (), mkWorld h ((t ++ [SentMessage msg]) ++ [SentPhoto c]))
              else (Raise NetworkError, mkWorld h (t ++ [SentMessage msg]))
         else (Raise NetworkError, mkWorld h t)
    else (Raise RenderError, mkWorld h t).
Proof.
  unfold plt_savefig, bot_sendMessage, bot_sendPhoto, mbind, M_bind.
  destruct (savefig env c); [|done].
  destruct (sendMessage env msg); [|done].
  by destruct (sendPhoto env c).
Qed.

Lemma alert_loop_cons env data metric rest w :
  alert_loop env data (metric :: rest) w
  = match alert_step env data metric w with
    | (Ok _, w') => alert_loop env data rest w'
    | (Raise e, w') => (Raise e, w')
    end.
Proof. reflexivity. Qed.

(** C5, as the code has it.  When a turn of the loop raises (the figure is
    not saved, or a call of the bot fails), the run ends with that error
    in the world the failure left: the metrics before it were processed,
    those after it are not evaluated. *)
Theorem failure_aborts_batch env data before metric after w w1 w2 e :
  alert_loop env data before w = (Ok (), w1) →
  alert_step env data metric w1 = (Raise e, w2) →
  alert_loop env data (before ++ metric :: after) w = (Raise e, w2).
Proof.
  revert w. induction before as [|m before IH]; intros w Hb Hs.
  - injection Hb as <-. cbn [app]. by rewrite alert_loop_cons, Hs.
  - cbn [app]. rewrite alert_loop_cons in *.
    destruct (alert_step env data m w) as [[[]|e'] w']; [|done].
    by apply IH.
Qed.

Lemma failure_aborts_batch_witness :
  alert_loop env_down 1%positive ([] ++ "views" :: ["likes"]) (mkWorld two_metrics_heap [])
  = (Raise NetworkError,
     (alert_step env_down 1%positive "views" (mkWorld two_metrics_heap [])).2).
Proof.
  apply (failure_aborts_batch env_down 1%positive [] "views" ["likes"]
           (mkWorld two_metrics_heap []) (mkWorld two_metrics_heap [])).
  - reflexivity.
  - vm_compute; reflexivity.
Defined.

(** C5, as it is stated, fails: with a notifier that is down, the run
    stops at the first metric that alerts; the second metric, which
    alerts too when the notifier works, is not evaluated. *)
Lemma notify_failure_aborts_run :
  (alert_loop env_down 1%positive ["views"; "likes"] (mkWorld two_metrics_heap [])).1
  = Raise NetworkError
  ∧ trace (alert_loop env_down 1%positive ["views"; "likes"]
             (mkWorld two_metrics_heap [])).2 = [Printed "views"]
  ∧ Printed "likes" ∈ trace (alert_loop env_ok 1%positive ["views"; "likes"]
                               (mkWorld two_metrics_heap [])).2
  ∧ ¬ isolates_failures env_down 1%positive ["views"; "likes"]
        (mkWorld two_metrics_heap []).
Proof.
  assert (trace (alert_loop env_down 1%positive ["views"; "likes"]
                   (mkWorld two_metrics_heap [])).2 = [Printed "views"]) as Htrace
    by (vm_compute; reflexivity).
  split; [vm_compute; reflexivity|]. split; [exact Htrace|]. split.
  - assert (∃ e1 e2 e3 e4, trace (alert_loop env_ok 1%positive ["views"; "likes"]
                                (mkWorld two_metrics_heap [])).2
                           = [e1; e2; e3; Printed "likes"; e4; SentPhoto
                                (mkChart "likes.png" "likes" (stamps 6) scenario
                                   (col_up 3 5 scenario) (col_low 3 5 scenario))])
      as (e1 & e2 & e3 & e4 & ->).
    { do 4 eexists. vm_compute. reflexivity. }
    do 3 right. left.
  - intros H. specialize (H "likes"). rewrite Htrace in H.
    assert (Printed "likes" ∈ [Printed "views"]) as Hin by (apply H; right; left).
    apply list_elem_of_singleton in Hin. discriminate Hin.
Qed.


(** * Further properties of the estimators *)

(** ** The latest observation does not enter its own bounds *)

Lemma shift1_snoc (xs : series) x : shift1 (xs ++ [x]) = NaN :: xs.
Proof.
  unfold shift1. destruct (xs ++ [x]) as [|c l] eqn:E.
  - by destruct xs.
  - rewrite <- E, length_app. cbn [length].
    replace (length xs + 1 - 1)%nat with (length xs) by lia.
    by rewrite take_app_length.
Qed.

Lemma annotated_snoc a n xs x y df :
  ∀ k, k ∈ derived_columns →
    columns (annotated a n (xs ++ [x]) df) !! k
    = columns (annotated a n (xs ++ [y]) df) !! k.
Proof.
  assert (col_q25 n (xs ++ [x]) = col_q25 n (xs ++ [y])) as H25
    by (unfold col_q25; by rewrite !shift1_snoc).
  assert (col_q75 n (xs ++ [x]) = col_q75 n (xs ++ [y])) as H75
    by (unfold col_q75; by rewrite !shift1_snoc).
  assert (col_iqr n (xs ++ [x]) = col_iqr n (xs ++ [y])) as Hiqr
    by (unfold col_iqr; by rewrite H25, H75).
  assert (col_up a n (xs ++ [x]) = col_up a n (xs ++ [y])) as Hup
    by (unfold col_up, col_up_raw; by rewrite H75, Hiqr).
  assert (col_low a n (xs ++ [x]) = col_low a n (xs ++ [y])) as Hlow
    by (unfold col_low, col_low_raw; by rewrite H25, Hiqr).
  intros k Hk. unfold derived_columns in Hk.
  repeat (apply elem_of_cons in Hk as [->|Hk]).
  - by rewrite !annotated_q25, H25.
  - by rewrite !annotated_q75, H75.
  - by rewrite !annotated_iqr, Hiqr.
  - by rewrite !annotated_up, Hup.
  - by rewrite !annotated_low, Hlow.
  - by apply elem_of_nil in Hk.
Qed.

Lemma annotated_raw_snoc a n xs x y df :
  ∀ k, k ∈ derived_columns →
    columns (annotated_raw a n (xs ++ [x]) df) !! k
    = columns (annotated_raw a n (xs ++ [y]) df) !! k.
Proof.
  assert (col_q25 n (xs ++ [x]) = col_q25 n (xs ++ [y])) as H25
    by (unfold col_q25; by rewrite !shift1_snoc).
  assert (col_q75 n (xs ++ [x]) = col_q75 n (xs ++ [y])) as H75
    by (unfold col_q75; by rewrite !shift1_snoc).
  assert (col_iqr n (xs ++ [x]) = col_iqr n (xs ++ [y])) as Hiqr
    by (unfold col_iqr; by rewrite H25, H75).
  assert (col_up_raw a n (xs ++ [x]) = col_up_raw a n (xs ++ [y])) as Hup
    by (unfold col_up_raw; by rewrite H75, Hiqr).
  assert (col_low_raw a n (xs ++ [x]) = col_low_raw a n (xs ++ [y])) as Hlow
    by (unfold col_low_raw; by rewrite H25, Hiqr).
  intros k Hk. unfold derived_columns in Hk.
  repeat (apply elem_of_cons in Hk as [->|Hk]).
  - by rewrite !annotated_raw_q25, H25.
  - by rewrite !annotated_raw_q75, H75.
  - by rewrite !annotated_raw_iqr, Hiqr.
  - by rewrite !annotated_raw_up, Hup.
  - by rewrite !annotated_raw_low, Hlow.
  - by apply elem_of_nil in Hk.
Qed.

Lemma column_of_insert_eq h1 t1 r1 df1 h2 t2 r2 df2 key :
  columns df1 !! key = columns df2 !! key →
  column_of (mkWorld (<[r1 := df1]> h1) t1) r1 key
  = column_of (mkWorld (<[r2 := df2]> h2) t2) r2 key.
Proof.
  intros H. unfold column_of. cbn [heap]. rewrite !lookup_insert_eq. cbn.
  by rewrite H.
Qed.

(** X1.  The five columns [check_anomaly] assigns are computed from the
    observations before the latest one only: two series that differ in
    their last value get the same [q25], [q75], [iqr], [up] and [low], at
    every position, the last included. *)
Theorem envelope_ignores_latest h1 t1 r1 df1 h2 t2 r2 df2 metric xs x y a n key :
  h1 !! r1 = Some df1 → columns df1 !! metric = Some (Num (xs ++ [x])) →
  h2 !! r2 = Some df2 → columns df2 !! metric = Some (Num (xs ++ [y])) →
  metric ∉ derived_columns →
  key ∈ derived_columns →
  column_of (check_anomaly r1 metric a n (mkWorld h1 t1)).2 r1 key
  = column_of (check_anomaly r2 metric a n (mkWorld h2 t2)).2 r2 key
  ∧ is_Some (column_of (check_anomaly r1 metric a n (mkWorld h1 t1)).2 r1 key).
Proof.
  intros Hr1 Hm1 Hr2 Hm2 Hd Hk.
  destruct (decide (n = 0)%nat) as [->|Hn].
  { rewrite (check_anomaly_run_zero h1 t1 r1 df1 metric a (xs ++ [x])) by done.
    rewrite (check_anomaly_run_zero h2 t2 r2 df2 metric a (xs ++ [y])) by done.
    cbn [snd]. split.
    - apply column_of_insert_eq.
      rewrite (annotated_raw_snoc a 0 xs x y df1 key Hk).
      unfold derived_columns in Hk.
      repeat (apply elem_of_cons in Hk as [->|Hk]).
      + by rewrite !annotated_raw_q25.
      + by rewrite !annotated_raw_q75.
      + by rewrite !annotated_raw_iqr.
      + by rewrite !annotated_raw_up.
      + by rewrite !annotated_raw_low.
      + by apply elem_of_nil in Hk.
    - unfold derived_columns in Hk.
      repeat (apply elem_of_cons in Hk as [->|Hk]).
      + erewrite column_of_insert; [done | apply annotated_raw_q25].
      + erewrite column_of_insert; [done | apply annotated_raw_q75].
      + erewrite column_of_insert; [done | apply annotated_raw_iqr].
      + erewrite column_of_insert; [done | apply annotated_raw_up].
      + erewrite column_of_insert; [done | apply annotated_raw_low].
      + by apply elem_of_nil in Hk. }
  rewrite (check_anomaly_run h1 t1 r1 df1 metric a n (xs ++ [x])) by (done || lia).
  rewrite (check_anomaly_run h2 t2 r2 df2 metric a n (xs ++ [y])) by (done || lia).
  cbn [snd]. split.
  - apply column_of_insert_eq.
    rewrite (annotated_snoc a n xs x y df1 key Hk).
    unfold derived_columns in Hk.
    repeat (apply elem_of_cons in Hk as [->|Hk]).
    + by rewrite !annotated_q25.
    + by rewrite !annotated_q75.
    + by rewrite !annotated_iqr.
    + by rewrite !annotated_up.
    + by rewrite !annotated_low.
    + by apply elem_of_nil in Hk.
  - unfold derived_columns in Hk.
    repeat (apply elem_of_cons in Hk as [->|Hk]).
    + erewrite column_of_insert; [done | apply annotated_q25].
    + erewrite column_of_insert; [done | apply annotated_q75].
    + erewrite column_of_insert; [done | apply annotated_iqr].
    + erewrite column_of_insert; [done | apply annotated_up].
    + erewrite column_of_insert; [done | apply annotated_low].
    + by apply elem_of_nil in Hk.
Qed.

Lemma envelope_ignores_latest_witness :
  column_of (check_anomaly 1%positive "views" 3 5
               (mkWorld {[ 1%positive := snapshot "views" latest_a ]} [])).2 1%positive "up"
  = column_of (check_anomaly 1%positive "views" 3 5
                 (mkWorld {[ 1%positive := snapshot "views" latest_b ]} [])).2 1%positive "up"
  ∧ is_Some (column_of (check_anomaly 1%positive "views" 3 5
               (mkWorld {[ 1%positive := snapshot "views" latest_a ]} [])).2 1%positive "up").
Proof.
  apply (envelope_ignores_latest
           {[ 1%positive := snapshot "views" latest_a ]} [] 1%positive (snapshot "views" latest_a)
           {[ 1%positive := snapshot "views" latest_b ]} [] 1%positive (snapshot "views" latest_b)
           "views" history (Some 91) (Some 14) 3 5 "up").
  - vm_compute; reflexivity.
  - vm_compute; reflexivity.
  - vm_compute; reflexivity.
  - vm_compute; reflexivity.
  - compute_done.
  - compute_done.
Defined.

(** ** Where the quartiles and the bounds are defined *)

Lemma cell_of_insert h t r df key vs i :
  columns df !! key = Some (Num vs) →
  cell_of (mkWorld (<[r := df]> h) t) r key i = vs !! i.
Proof.
  intros H. unfold cell_of. by rewrite (column_of_insert _ _ _ _ _ _ H).
Qed.

Lemma preceding_numeric n xs i :
  (n ≤ i)%nat → (i ≤ length xs)%nat →
  (∀ j, (i - n ≤ j < i)%nat → ∃ v, xs !! j = Some (Some v)) →
  ∃ obs, Spec.preceding n xs i = Some obs ∧ length obs = n.
Proof.
  intros Hn Hi Hnum. unfold Spec.preceding. rewrite decide_True by done.
  destruct (mapM_is_Some_2 id (take n (drop (i - n) xs))) as [obs Hobs].
  { apply Forall_lookup. intros k c Hk.
    apply lookup_take_Some in Hk as [Hk Hkn]. rewrite lookup_drop in Hk.
    destruct (Hnum (i - n + k)%nat) as [v Hv]; [lia|].
    rewrite Hv in Hk. injection Hk as <-. by eexists. }
  exists obs. split; [done|].
  apply length_mapM in Hobs. rewrite <- Hobs, length_take, length_drop. lia.
Qed.

Lemma preceding_short_of_index n xs i : (i < n)%nat → Spec.preceding n xs i = None.
Proof. intros Hi. unfold Spec.preceding. rewrite decide_False; [done | lia]. Qed.

Lemma preceding_length n xs i obs :
  Spec.preceding n xs i = Some obs → (i ≤ length xs)%nat → length obs = n.
Proof.
  unfold Spec.preceding. case_decide as Hn; [|done]. intros Hobs Hi.
  apply length_mapM in Hobs. rewrite <- Hobs, length_take, length_drop. lia.
Qed.

(** X2.  The quartile columns need a full window of numbers before a
    position.  After [check_anomaly] with a window [n >= 1]: at a position
    with fewer than [n] observations before it, [q25], [q75] and [iqr] are
    NaN; at a position whose [n] preceding values are all numbers, the
    three are numbers; and wherever the quartiles are numbers,
    [q25 <= q75], so that a defined [iqr] is never negative. *)
Theorem quartiles_need_a_full_window h t r df metric xs a n i :
  h !! r = Some df →
  columns df !! metric = Some (Num xs) →
  metric ∉ derived_columns →
  (1 ≤ n)%nat →
  (i < length xs)%nat →
  let w' := (check_anomaly r metric a n (mkWorld h t)).2 in
  ((i < n)%nat →
   cell_of w' r "q25" i = Some NaN ∧ cell_of w' r "q75" i = Some NaN
   ∧ cell_of w' r "iqr" i = Some NaN)
  ∧ ((n ≤ i)%nat →
     (∀ j, (i - n ≤ j < i)%nat → ∃ v, xs !! j = Some (Some v)) →
     ∃ p q, cell_of w' r "q25" i = Some (Some p) ∧ cell_of w' r "q75" i = Some (Some q)
            ∧ cell_of w' r "iqr" i = Some (Some (q - p)))
  ∧ (∀ p q, cell_of w' r "q25" i = Some (Some p) →
            cell_of w' r "q75" i = Some (Some q) →
            p <= q ∧ cell_of w' r "iqr" i = Some (Some (q - p)) ∧ 0 <= q - p).
Proof.
  intros Hr Hm Hd Hn Hi w'. unfold w'.
  rewrite (check_anomaly_run h t r df metric a n xs) by done. cbn [snd].
  rewrite (cell_of_insert _ _ _ _ _ _ _ (annotated_q25 a n xs df)).
  rewrite (cell_of_insert _ _ _ _ _ _ _ (annotated_q75 a n xs df)).
  rewrite (cell_of_insert _ _ _ _ _ _ _ (annotated_iqr a n xs df)).
  rewrite col_q25_lookup, col_q75_lookup, col_iqr_lookup by done.
  unfold Spec.iqr, Spec.q75, Spec.q25, Spec.percentile.
  split; [|split].
  - intros Hlt. rewrite preceding_short_of_index; done.
  - intros Hle Hnum.
    destruct (preceding_numeric n xs i) as (obs & -> & _); [done | lia | done |].
    cbn. by eexists _, _.
  - intros p q Hp Hq.
    destruct (Spec.preceding n xs i) as [obs|] eqn:Hobs; [|done].
    cbn in *. injection Hp as <-. injection Hq as <-.
    assert (obs ≠ []) as Hne.
    { apply preceding_length in Hobs; [|lia]. intros ->. cbn in Hobs. lia. }
    pose proof (quantile_quartiles obs Hne). split; [done|]. split; [done | lra].
Qed.

Lemma quartiles_need_a_full_window_witness :
  ∃ p q,
    cell_of (check_anomaly 1%positive "views" 3 5 (mkWorld sample_heap [])).2
            1%positive "q25" 5 = Some (Some p)
    ∧ cell_of (check_anomaly 1%positive "views" 3 5 (mkWorld sample_heap [])).2
              1%positive "q75" 5 = Some (Some q)
    ∧ cell_of (check_anomaly 1%positive "views" 3 5 (mkWorld sample_heap [])).2
              1%positive "iqr" 5 = Some (Some (q - p)).
Proof.
  destruct (quartiles_need_a_full_window sample_heap [] 1%positive sample_frame "views"
              scenario 3 5 5) as (_ & Hfull & _).
  - vm_compute; reflexivity.
  - vm_compute; reflexivity.
  - compute_done.
  - lia.
  - cbn; lia.
  - apply Hfull; [lia|]. intros j Hj.
    do 5 (destruct j as [|j]; [by eexists|]). lia.
Defined.

Lemma average_defined xs raw first last (j : nat) y :
  raw j = Some y →
  (first ≤ Z.of_nat j ≤ last)%Z → (j < length xs)%nat →
  is_Some (Spec.average xs raw first last).
Proof.
  intros Hy Hj Hlen. unfold Spec.average. cbv zeta.
  destruct (omap raw (seq _ _)) as [|z zs] eqn:E; [|by eexists].
  exfalso. apply (not_elem_of_nil y). rewrite <- E.
  apply list_elem_of_omap. exists j. split; [|done].
  apply elem_of_seq. clear E Hy. lia.
Qed.

Lemma raw_defined a n xs i :
  (n ≤ i)%nat → (i < length xs)%nat →
  (∀ j, (i - n ≤ j < i)%nat → ∃ v, xs !! j = Some (Some v)) →
  is_Some (Spec.low_raw a n xs i) ∧ is_Some (Spec.up_raw a n xs i).
Proof.
  intros Hn Hi Hnum.
  unfold Spec.low_raw, Spec.up_raw, Spec.iqr, Spec.q25, Spec.q75, Spec.percentile.
  destruct (preceding_numeric n xs i) as (obs & -> & _); [done | lia | done |].
  cbn. by split.
Qed.

(** X3.  With enough history there are bounds to compare with.  On a
    series of more than [n] observations whose [n] values before the
    latest one are numbers, [check_anomaly] (window [n >= 1]) returns a
    verdict, [low[last]] and [up[last]] are numbers, and for a spread
    factor that is not negative [low[last] <= up[last]]. *)
Theorem enough_history_gives_bounds h t r df metric xs a n :
  h !! r = Some df →
  columns df !! metric = Some (Num xs) →
  metric ∉ derived_columns →
  (1 ≤ n)%nat →
  (n < length xs)%nat →
  (∀ j, (length xs - 1 - n ≤ j < length xs - 1)%nat → ∃ v, xs !! j = Some (Some v)) →
  ∃ v l u,
    (check_anomaly r metric a n (mkWorld h t)).1 = Ok (v, r)
    ∧ cell_of (check_anomaly r metric a n (mkWorld h t)).2 r "low" (length xs - 1)
      = Some (Some l)
    ∧ cell_of (check_anomaly r metric a n (mkWorld h t)).2 r "up" (length xs - 1)
      = Some (Some u)
    ∧ (0 <= a → l <= u).
Proof.
  intros Hr Hm Hd Hn Hlen Hnum.
  rewrite (check_anomaly_run h t r df metric a n xs) by done. cbn [fst snd].
  rewrite (cell_of_insert _ _ _ _ _ _ _ (annotated_low a n xs df)).
  rewrite (cell_of_insert _ _ _ _ _ _ _ (annotated_up a n xs df)).
  set (i := (length xs - 1)%nat) in *.
  assert (i < length xs)%nat as Hi by (unfold i; lia).
  destruct (raw_defined a n xs i) as [[lr Hlr] [ur Hur]]; [unfold i; lia | done | done |].
  assert (∃ l, col_low a n xs !! i = Some (Some l)) as [l Hl].
  { rewrite col_low_lookup by done. unfold Spec.low_width, Spec.smooth_width.
    destruct (average_defined xs (Spec.low_raw a n xs)
                (Z.of_nat i - Z.of_nat n / 2) (Z.of_nat i + (Z.of_nat n - 1) / 2) i lr)
      as [l ->]; [done | | done | by eexists].
    clear -Hn. Z.div_mod_to_equations. lia. }
  assert (∃ u, col_up a n xs !! i = Some (Some u)) as [u Hu].
  { rewrite col_up_lookup by done. unfold Spec.up_width, Spec.smooth_width.
    destruct (average_defined xs (Spec.up_raw a n xs)
                (Z.of_nat i - Z.of_nat n / 2) (Z.of_nat i + (Z.of_nat n - 1) / 2) i ur)
      as [u ->]; [done | | done | by eexists].
    clear -Hn. Z.div_mod_to_equations. lia. }
  destruct (last xs) as [x|] eqn:Hx.
  2:{ apply last_None in Hx. subst xs. cbn in Hlen. lia. }
  exists (verdict x (Some l) (Some u)), l, u.
  split; [|split; [done | split; [done|]]].
  - apply judge_verdict; [done | |].
    + rewrite last_lookup, length_col_low.
      by replace (Nat.pred (length xs)) with i by (unfold i; lia).
    + rewrite last_lookup, length_col_up.
      by replace (Nat.pred (length xs)) with i by (unfold i; lia).
  - intros Ha.
    exact (Forall2_lookup_lr _ _ _ _ _ _ (col_ordered a n xs Ha) Hl Hu).
Qed.

Lemma enough_history_gives_bounds_witness :
  ∃ v l u,
    (check_anomaly 1%positive "views" 3 5 (mkWorld sample_heap [])).1 = Ok (v, 1%positive)
    ∧ cell_of (check_anomaly 1%positive "views" 3 5 (mkWorld sample_heap [])).2
              1%positive "low" (length scenario - 1) = Some (Some l)
    ∧ cell_of (check_anomaly 1%positive "views" 3 5 (mkWorld sample_heap [])).2
              1%positive "up" (length scenario - 1) = Some (Some u)
    ∧ (0 <= 3 → l <= u).
Proof.
  apply (enough_history_gives_bounds sample_heap [] 1%positive sample_frame "views" scenario 3 5).
  - vm_compute; reflexivity.
  - vm_compute; reflexivity.
  - compute_done.
  - lia.
  - cbn; lia.
  - intros j Hj. cbn in Hj.
    do 5 (destruct j as [|j]; [by eexists|]). lia.
Defined.

(** ** The spread factor *)

Lemma col_up_raw_mono a a' n xs :
  a <= a' → Forall2 bounds_ordered (col_up_raw a n xs) (col_up_raw a' n xs).
Proof.
  intros Ha.
  unfold col_up_raw, col_iqr, col_q25, col_q75.
  unfold rolling_quantile, rolling_apply, series_sub, series_add, series_scale.
  rewrite !zip_with_fmap_same, <- !list_fmap_compose, !zip_with_fmap_same.
  apply Forall2_fmap, Forall_Forall2_diag, Forall_forall. intros i _. cbn.
  case_decide as Hd; cbn; [|done].
  assert (observations (window_at n false (shift1 xs) i) ≠ []) as Hne.
  { intros Hnil. rewrite Hnil in Hd. cbn in Hd. lia. }
  pose proof (quantile_quartiles _ Hne) as Hq.
  set (p := quantile (1#4) _) in *. set (q := quantile (3#4) _) in *.
  assert (a * (q - p) <= a' * (q - p)) by (apply Qmult_le_compat_r; lra).
  lra.
Qed.

Lemma col_low_raw_anti a a' n xs :
  a <= a' → Forall2 bounds_ordered (col_low_raw a' n xs) (col_low_raw a n xs).
Proof.
  intros Ha.
  unfold col_low_raw, col_iqr, col_q25, col_q75.
  unfold rolling_quantile, rolling_apply, series_sub, series_add, series_scale.
  rewrite !zip_with_fmap_same, <- !list_fmap_compose, !zip_with_fmap_same.
  apply Forall2_fmap, Forall_Forall2_diag, Forall_forall. intros i _. cbn.
  case_decide as Hd; cbn; [|done].
  assert (observations (window_at n false (shift1 xs) i) ≠ []) as Hne.
  { intros Hnil. rewrite Hnil in Hd. cbn in Hd. lia. }
  pose proof (quantile_quartiles _ Hne) as Hq.
  set (p := quantile (1#4) _) in *. set (q := quantile (3#4) _) in *.
  assert (a * (q - p) <= a' * (q - p)) by (apply Qmult_le_compat_r; lra).
  lra.
Qed.

Lemma Forall2_last {A B} (R : A → B → Prop) (l : list A) (k : list B) x :
  Forall2 R l k → last l = Some x → ∃ y, last k = Some y ∧ R x y.
Proof.
  intros H Hx. rewrite last_lookup in Hx.
  destruct (Forall2_lookup_l _ _ _ _ _ H Hx) as (y & Hy & Hxy).
  exists y. split; [|done].
  by rewrite last_lookup, <- (Forall2_length _ _ _ H).
Qed.

Lemma cell_lt_le_trans x l l' : cell_lt x l' → bounds_ordered l' l → cell_lt x l.
Proof.
  destruct x as [p|], l' as [q'|], l as [q|]; cbn; try done.
  intros. by apply (Qlt_le_trans _ q').
Qed.

Lemma cell_le_lt_trans u u' x : bounds_ordered u u' → cell_lt u' x → cell_lt u x.
Proof.
  destruct x as [p|], u' as [q'|], u as [q|]; cbn; try done.
  intros. by apply (Qle_lt_trans _ q').
Qed.

(** An alert inside a wider envelope is an alert inside a narrower one. *)
Lemma judge_narrower r xs lows lows' ups ups' :
  Forall2 bounds_ordered lows' lows → Forall2 bounds_ordered ups ups' →
  judge r xs lows' ups' = Ok (1%Z, r) → judge r xs lows ups = Ok (1%Z, r).
Proof.
  intros Hlow Hup Hj.
  destruct (last xs) as [x|] eqn:Hx; [|by unfold judge in Hj; rewrite Hx in Hj].
  destruct (last lows') as [l'|] eqn:Hl';
    [|by unfold judge in Hj; rewrite Hx, Hl' in Hj].
  destruct (Forall2_last _ _ _ _ Hlow Hl') as (l & Hl & Hll).
  destruct (last ups) as [u|] eqn:Hu.
  - destruct (Forall2_last _ _ _ _ Hup Hu) as (u' & Hu' & Huu).
    rewrite (judge_verdict r xs lows' ups' x l' u') in Hj by done.
    rewrite (judge_verdict r xs lows ups x l u) by done.
    injection Hj as Hv. f_equal. f_equal.
    apply verdict_spec. apply verdict_spec in Hv as [Hv|Hv].
    + left. by eapply cell_lt_le_trans.
    + right. by eapply cell_le_lt_trans.
  - assert (last ups' = None) as Hu'.
    { apply last_None in Hu. subst ups. by apply Forall2_nil_inv_l in Hup as ->. }
    unfold judge in *. rewrite Hx, Hl' in Hj. rewrite Hx, Hl.
    destruct (cell_ltb x l') eqn:E.
    + apply cell_ltb_lt in E.
      assert (cell_ltb x l = true) as -> by (apply cell_ltb_lt; by eapply cell_lt_le_trans).
      done.
    + by rewrite Hu' in Hj.
Qed.

(** X4.  The spread factor only widens the envelope.  For [a <= a'] the
    bounds of [check_anomaly] with [a'] lie outside those with [a] at every
    position ([low' <= low] and [up <= up']), so a latest value that
    alerts with the larger factor alerts with the smaller one. *)
Theorem wider_spread_never_adds_alerts h t r df metric xs a a' n :
  h !! r = Some df →
  columns df !! metric = Some (Num xs) →
  metric ∉ derived_columns →
  a <= a' →
  ((check_anomaly r metric a' n (mkWorld h t)).1 = Ok (1%Z, r) →
   (check_anomaly r metric a n (mkWorld h t)).1 = Ok (1%Z, r))
  ∧ ∀ i l l' u u',
      cell_of (check_anomaly r metric a n (mkWorld h t)).2 r "low" i = Some (Some l) →
      cell_of (check_anomaly r metric a' n (mkWorld h t)).2 r "low" i = Some (Some l') →
      cell_of (check_anomaly r metric a n (mkWorld h t)).2 r "up" i = Some (Some u) →
      cell_of (check_anomaly r metric a' n (mkWorld h t)).2 r "up" i = Some (Some u') →
      l' <= l ∧ u <= u'.
Proof.
  intros Hr Hm Hd Ha.
  destruct (decide (n = 0)%nat) as [->|Hn].
  { rewrite (check_anomaly_run_zero h t r df metric a xs) by done.
    rewrite (check_anomaly_run_zero h t r df metric a' xs) by done.
    cbn [fst snd]. split; [done|].
    intros i l l' u u'.
    rewrite (cell_of_insert _ _ _ _ _ _ _ (annotated_raw_low a 0 xs df)).
    rewrite (cell_of_insert _ _ _ _ _ _ _ (annotated_raw_low a' 0 xs df)).
    rewrite (cell_of_insert _ _ _ _ _ _ _ (annotated_raw_up a 0 xs df)).
    rewrite (cell_of_insert _ _ _ _ _ _ _ (annotated_raw_up a' 0 xs df)).
    intros Hl Hl' Hu Hu'. split.
    - exact (Forall2_lookup_lr _ _ _ _ _ _ (col_low_raw_anti a a' 0 xs Ha) Hl' Hl).
    - exact (Forall2_lookup_lr _ _ _ _ _ _ (col_up_raw_mono a a' 0 xs Ha) Hu Hu'). }
  rewrite (check_anomaly_run h t r df metric a n xs) by (done || lia).
  rewrite (check_anomaly_run h t r df metric a' n xs) by (done || lia).
  cbn [fst snd].
  pose proof (rolling_mean_ordered n true 1 _ _ (col_low_raw_anti a a' n xs Ha)) as Hlow.
  pose proof (rolling_mean_ordered n true 1 _ _ (col_up_raw_mono a a' n xs Ha)) as Hup.
  split.
  - intros Hj.
    apply (judge_narrower r xs (col_low a n xs) (col_low a' n xs)
             (col_up a n xs) (col_up a' n xs) Hlow Hup Hj).
  - intros i l l' u u'.
    rewrite (cell_of_insert _ _ _ _ _ _ _ (annotated_low a n xs df)).
    rewrite (cell_of_insert _ _ _ _ _ _ _ (annotated_low a' n xs df)).
    rewrite (cell_of_insert _ _ _ _ _ _ _ (annotated_up a n xs df)).
    rewrite (cell_of_insert _ _ _ _ _ _ _ (annotated_up a' n xs df)).
    intros Hl Hl' Hu Hu'. split.
    + exact (Forall2_lookup_lr _ _ _ _ _ _ Hlow Hl' Hl).
    + exact (Forall2_lookup_lr _ _ _ _ _ _ Hup Hu Hu').
Qed.

Lemma wider_spread_never_adds_alerts_witness :
  (check_anomaly 1%positive "views" 4 5 (mkWorld sample_heap [])).1 = Ok (1%Z, 1%positive)
  ∧ (check_anomaly 1%positive "views" 3 5 (mkWorld sample_heap [])).1 = Ok (1%Z, 1%positive).
Proof.
  assert ((check_anomaly 1%positive "views" 4 5 (mkWorld sample_heap [])).1
          = Ok (1%Z, 1%positive)) as Hwide by (vm_compute; reflexivity).
  split; [exact Hwide|].
  refine (proj1 (wider_spread_never_adds_alerts sample_heap [] 1%positive sample_frame
                   "views" scenario 3 4 5 _ _ _ _) Hwide).
  - vm_compute; reflexivity.
  - vm_compute; reflexivity.
  - compute_done.
  - discriminate.
Defined.

(** ** The fixed thresholds *)



(** ** A frame without the metric *)

Lemma getnum_or_missing e h t r df key :
  h !! r = Some df → columns df !! key = None →
  getnum_or e r key (mkWorld h t) = (Raise (KeyError key), mkWorld h t).
Proof.
  intros Hr Hk. unfold getnum_or, getitem, mbind, M_bind, deref. cbn [heap].
  rewrite Hr. by rewrite Hk.
Qed.

Lemma getnum_missing h t r df key :
  h !! r = Some df → columns df !! key = None →
  getnum r key (mkWorld h t) = (Raise (KeyError key), mkWorld h t).
Proof.
  intros Hr Hk. unfold getnum, getitem, mbind, M_bind, deref. cbn [heap].
  rewrite Hr. by rewrite Hk.
Qed.

(** X6.  On a frame without the metric column both estimators raise
    [KeyError] for the metric.  [check_anomaly] reads the column first and
    leaves the store as it was; [check_anomaly_ctr] assigns its two
    bounds before it reads the column, so the frame has gained [up] and
    [low] when the error is raised. *)
Theorem missing_metric_raises_key_error h t r df metric a n :
  h !! r = Some df →
  columns df !! metric = None →
  metric ∉ derived_columns →
  check_anomaly r metric a n (mkWorld h t) = (Raise (KeyError metric), mkWorld h t)
  ∧ (check_anomaly_ctr r metric (mkWorld h t)).1 = Raise (KeyError metric)
  ∧ column_of (check_anomaly_ctr r metric (mkWorld h t)).2 r "up"
    = Some (replicate (nrows df) (Some (23#100)))
  ∧ column_of (check_anomaly_ctr r metric (mkWorld h t)).2 r "low"
    = Some (replicate (nrows df) (Some (19#100))).
Proof.
  intros Hr Hm Hd. destruct (derived_up_low metric Hd) as [N1 N2].
  split.
  - unfold check_anomaly.
    by rewrite (bind_raise _ _ _ _ _ (getnum_or_missing _ _ _ _ _ _ Hr Hm)).
  - assert (check_anomaly_ctr r metric (mkWorld h t)
            = (Raise (KeyError metric), mkWorld (<[r := annotated_ctr df]> h) t)) as ->.
    { unfold check_anomaly_ctr.
      rewrite (bind_ok _ _ _ _ _ (setitem_scalar_run _ _ _ _ _ _ Hr)).
      erewrite bind_ok by (eapply setitem_scalar_run; apply lookup_insert_eq).
      rewrite insert_insert_eq.
      erewrite bind_raise; [reflexivity|].
      erewrite bind_raise; [reflexivity|].
      apply getnum_missing with (df := annotated_ctr df).
      - apply lookup_insert_eq.
      - by rewrite annotated_ctr_other
          by (intros Hin; repeat (apply elem_of_cons in Hin as [?|Hin]; [done|]);
              by apply elem_of_nil in Hin). }
    cbn [fst snd]. split; [done|].
    split; apply column_of_insert; [apply annotated_ctr_up | apply annotated_ctr_low].
Qed.

Lemma missing_metric_raises_key_error_witness :
  check_anomaly 1%positive "likes" 3 5 (mkWorld sample_heap [])
  = (Raise (KeyError "likes"), mkWorld sample_heap [])
  ∧ (check_anomaly_ctr 1%positive "likes" (mkWorld sample_heap [])).1 = Raise (KeyError "likes")
  ∧ column_of (check_anomaly_ctr 1%positive "likes" (mkWorld sample_heap [])).2 1%positive "up"
    = Some (replicate (nrows sample_frame) (Some (23#100)))
  ∧ column_of (check_anomaly_ctr 1%positive "likes" (mkWorld sample_heap [])).2 1%positive "low"
    = Some (replicate (nrows sample_frame) (Some (19#100))).
Proof.
  apply (missing_metric_raises_key_error sample_heap [] 1%positive sample_frame "likes" 3 5).
  - vm_compute; reflexivity.
  - vm_compute; reflexivity.
  - compute_done.
Defined.

(** ** Running an estimator again *)

Lemma annotated_idem a n xs df :
  annotated a n xs (annotated a n xs df) = annotated a n xs df.
Proof.
  unfold annotated. cbn [nrows columns]. f_equal.
  apply map_eq. intros k. rewrite !lookup_insert.
  repeat case_decide; done.
Qed.

Lemma annotated_ctr_idem df : annotated_ctr (annotated_ctr df) = annotated_ctr df.
Proof.
  unfold annotated_ctr. cbn [nrows columns]. f_equal.
  apply map_eq. intros k. rewrite !lookup_insert.
  repeat case_decide; done.
Qed.

(** X7.  Running an estimator a second time on the frame it has annotated
    changes nothing: the verdict (or the error) is the same and the store
    is the one the first run left. *)
Theorem estimators_rerun_same h t r df metric xs a n :
  h !! r = Some df →
  columns df !! metric = Some (Num xs) →
  metric ∉ derived_columns →
  (check_anomaly r metric a n ≫= λ _, check_anomaly r metric a n) (mkWorld h t)
  = check_anomaly r metric a n (mkWorld h t)
  ∧ (check_anomaly_ctr r metric ≫= λ _, check_anomaly_ctr r metric) (mkWorld h t)
    = check_anomaly_ctr r metric (mkWorld h t).
Proof.
  intros Hr Hm Hd. destruct (derived_up_low metric Hd) as [N1 N2]. split.
  - destruct (decide (n = 0)%nat) as [->|Hn].
    { pose proof (check_anomaly_run_zero h t r df metric a xs Hr Hm Hd) as Hrun.
      by rewrite (bind_raise _ _ _ _ _ Hrun), Hrun. }
    assert (1 ≤ n)%nat as Hwin by lia.
    pose proof (check_anomaly_run h t r df metric a n xs Hr Hm Hd Hwin) as Hrun.
    destruct (judge r xs (col_low a n xs) (col_up a n xs)) as [res|e] eqn:Hj.
    + rewrite (bind_ok _ _ _ _ _ Hrun), Hrun.
      rewrite (check_anomaly_run _ t r (annotated a n xs df) metric a n xs).
      * by rewrite Hj, insert_insert_eq, annotated_idem.
      * apply lookup_insert_eq.
      * by rewrite annotated_other.
      * done.
      * done.
    + by rewrite (bind_raise _ _ _ _ _ Hrun), Hrun.
  - pose proof (check_anomaly_ctr_run h t r df metric xs Hr Hm N1 N2) as Hrun.
    destruct (judge r xs _ _) as [res|e] eqn:Hj.
    + rewrite (bind_ok _ _ _ _ _ Hrun), Hrun.
      rewrite (check_anomaly_ctr_run _ t r (annotated_ctr df) metric xs).
      * cbn [nrows annotated_ctr] in *. change (nrows (annotated_ctr df)) with (nrows df).
        by rewrite Hj, insert_insert_eq, annotated_ctr_idem.
      * apply lookup_insert_eq.
      * rewrite annotated_ctr_other; [done|].
        intros Hin. repeat (apply elem_of_cons in Hin as [?|Hin]; [done|]).
        by apply elem_of_nil in Hin.
      * done.
      * done.
    + by rewrite (bind_raise _ _ _ _ _ Hrun), Hrun.
Qed.

Lemma estimators_rerun_same_witness :
  (check_anomaly 1%positive "views" 3 5 ≫= λ _, check_anomaly 1%positive "views" 3 5)
    (mkWorld sample_heap [])
  = check_anomaly 1%positive "views" 3 5 (mkWorld sample_heap [])
  ∧ (check_anomaly_ctr 1%positive "views" ≫= λ _, check_anomaly_ctr 1%positive "views")
      (mkWorld sample_heap [])
    = check_anomaly_ctr 1%positive "views" (mkWorld sample_heap []).
Proof.
  apply (estimators_rerun_same sample_heap [] 1%positive sample_frame "views" scenario 3 5).
  - vm_compute; reflexivity.
  - vm_compute; reflexivity.
  - compute_done.
Defined.


(** * Further properties of the dispatcher *)

(** ** The parts of a turn *)

Lemma alert_step_unfold env data metric :
  alert_step env data metric
  = (emit (Printed metric);;
     df ← select_copy data ["ts"; "date"; "hm"; metric];
     res ← estimate metric df;
     if decide (res.1 = 1%Z) then notify env metric res.2 else mret ()).
Proof. reflexivity. Qed.

Lemma iloc_neg_run k s w :
  iloc_neg k s w
  = match nth_last k s with
    | Some c => (Ok c, w)
    | None => (Raise IndexError, w)
    end.
Proof.
  unfold iloc_neg, nth_last. case_decide; [|done].
  by destruct (s !! _).
Qed.

Lemma nth_last_1 s : nth_last 1 s = last s.
Proof.
  unfold nth_last. rewrite last_lookup. destruct s as [|c s]; [done|].
  rewrite decide_True by (cbn; lia).
  by replace (length (c :: s) - 1)%nat with (Nat.pred (length (c :: s))) by (cbn; lia).
Qed.

Lemma nth_last_snoc2 (pre : series) prev cur : nth_last 2 (pre ++ [prev; cur]) = Some prev.
Proof.
  unfold nth_last. rewrite length_app. cbn [length].
  rewrite decide_True by lia.
  replace (length pre + 2 - 2)%nat with (length pre + 0)%nat by lia.
  by rewrite lookup_app_r, Nat.add_0_r, Nat.sub_diag by lia.
Qed.

Lemma estimate_run h t r base metric xs :
  h !! r = Some base →
  columns base !! metric = Some (Num xs) →
  metric ∉ derived_columns →
  estimate metric r (mkWorld h t)
  = (judge r xs (turn_low metric (nrows base) xs) (turn_up metric (nrows base) xs),
     mkWorld (<[r := turn_frame metric xs base]> h) t).
Proof.
  intros Hr Hm Hd. destruct (derived_up_low metric Hd) as [N1 N2].
  unfold estimate, turn_low, turn_up, turn_frame. case_decide.
  - by apply check_anomaly_ctr_run.
  - apply check_anomaly_run; [done | done | done | unfold default_n; lia].
Qed.

Lemma judge_other_ref r r' xs lows ups :
  judge r' xs lows ups
  = match judge r xs lows ups with
    | Ok (v, _) => Ok (v, r')
    | Raise e => Raise e
    end.
Proof.
  unfold judge. destruct (last xs) as [x|]; [|done].
  destruct (last lows) as [l|]; [|done].
  destruct (cell_ltb x l); [done|].
  destruct (last ups) as [u|]; [|done].
  by destruct (cell_gtb x u).
Qed.

Lemma not_up_low metric : metric ∉ derived_columns → metric ∉ ["up"; "low"].
Proof.
  intros [N1 N2]%derived_up_low Hin.
  repeat (apply elem_of_cons in Hin as [?|Hin]; [done|]).
  by apply elem_of_nil in Hin.
Qed.

Lemma turn_frame_metric metric xs base :
  columns base !! metric = Some (Num xs) → metric ∉ derived_columns →
  columns (turn_frame metric xs base) !! metric = Some (Num xs).
Proof.
  intros Hm Hd. unfold turn_frame. case_decide.
  - by rewrite annotated_ctr_other by by apply not_up_low.
  - by rewrite annotated_other.
Qed.

Lemma turn_frame_ts metric xs base :
  columns (turn_frame metric xs base) !! "ts" = columns base !! "ts".
Proof.
  unfold turn_frame. case_decide.
  - apply annotated_ctr_other. compute_done.
  - apply annotated_other. compute_done.
Qed.

Lemma turn_frame_up metric xs base :
  columns (turn_frame metric xs base) !! "up"
  = Some (Num (turn_up metric (nrows base) xs)).
Proof.
  unfold turn_frame, turn_up. case_decide; [apply annotated_ctr_up | apply annotated_up].
Qed.

Lemma turn_frame_low metric xs base :
  columns (turn_frame metric xs base) !! "low"
  = Some (Num (turn_low metric (nrows base) xs)).
Proof.
  unfold turn_frame, turn_low. case_decide; [apply annotated_ctr_low | apply annotated_low].
Qed.

Lemma getnum_nth_last_run h t r df key vs k :
  h !! r = Some df → columns df !! key = Some (Num vs) →
  (getnum r key ≫= iloc_neg k) (mkWorld h t)
  = match nth_last k vs with
    | Some c => (Ok c, mkWorld h t)
    | None => (Raise IndexError, mkWorld h t)
    end.
Proof.
  intros Hr Hk.
  rewrite (bind_ok _ _ _ _ _ (getnum_run _ _ _ _ _ _ Hr Hk)).
  apply iloc_neg_run.
Qed.

(** The branch for a flagged metric, on a frame that holds the series,
    the time column and the two bounds. *)
Lemma notify_run env metric r fr h t xs cts ups lows cur :
  h !! r = Some fr →
  columns fr !! metric = Some (Num xs) →
  columns fr !! "ts" = Some cts →
  columns fr !! "up" = Some (Num ups) →
  columns fr !! "low" = Some (Num lows) →
  last xs = Some cur →
  notify env metric r (mkWorld h t)
  = match nth_last 2 xs with
    | None => (Raise IndexError, mkWorld h t)
    | Some prev =>
        (plt_savefig env (mkChart (metric +:+ ".png") metric cts xs ups lows);;
         bot_sendMessage env (alert_text metric cur (percent_change cur prev) (url env));;
         bot_sendPhoto env (mkChart (metric +:+ ".png") metric cts xs ups lows))
          (mkWorld h t)
    end.
Proof.
  intros Hr Hm Hts Hup Hlow Hcur. unfold notify.
  pose proof (getnum_nth_last_run h t r fr metric xs 1 Hr Hm) as H1.
  rewrite nth_last_1, Hcur in H1.
  pose proof (getnum_nth_last_run h t r fr metric xs 2 Hr Hm) as H2.
  rewrite (bind_ok _ _ _ _ _ H1), (bind_ok _ _ _ _ _ H1).
  destruct (nth_last 2 xs) as [prev|].
  2:{ by rewrite (bind_raise _ _ _ _ _ H2). }
  rewrite (bind_ok _ _ _ _ _ H2).
  rewrite (bind_ok _ _ _ _ _ (getitem_run _ _ _ _ _ _ Hr Hts)).
  rewrite (bind_ok _ _ _ _ _ (getnum_run _ _ _ _ _ _ Hr Hm)).
  rewrite (bind_ok _ _ _ _ _ (getnum_run _ _ _ _ _ _ Hr Hup)).
  rewrite (bind_ok _ _ _ _ _ (getnum_run _ _ _ _ _ _ Hr Hlow)).
  reflexivity.
Qed.

(** A turn on a well-formed snapshot: the metric is printed, the copy is
    annotated behind a fresh reference, and the verdict of the estimator
    (the one it gives on the snapshot itself) decides what follows. *)
Lemma alert_step_run env data d metric xs h t :
  h !! data = Some d →
  snapshot_has d metric xs →
  ∃ fr cts,
    columns d !! "ts" = Some cts
    ∧ columns fr !! "ts" = Some cts
    ∧ columns fr !! metric = Some (Num xs)
    ∧ columns fr !! "up" = Some (Num (turn_up metric (nrows d) xs))
    ∧ columns fr !! "low" = Some (Num (turn_low metric (nrows d) xs))
    ∧ fresh (dom h) ≠ data
    ∧ alert_step env data metric (mkWorld h t)
      = match is_alert_of (estimate metric data (mkWorld h t)) with
        | Raise e =>
            (Raise e, mkWorld (<[fresh (dom h) := fr]> h) (t ++ [Printed metric]))
        | Ok v =>
            if decide (v = 1%Z)
            then notify env metric (fresh (dom h))
                   (mkWorld (<[fresh (dom h) := fr]> h) (t ++ [Printed metric]))
            else (Ok (), mkWorld (<[fresh (dom h) := fr]> h) (t ++ [Printed metric]))
        end.
Proof.
  intros Hd (Hk & Hm & Hn & Hder).
  destruct (pick_ok (columns d) ["ts"; "date"; "hm"; metric]) as [m Hp].
  { intros k Hin. apply elem_of_cons in Hin as [->|Hin]; [apply Hk; by left|].
    apply elem_of_cons in Hin as [->|Hin]; [apply Hk; right; by left|].
    apply elem_of_cons in Hin as [->|Hin]; [apply Hk; right; right; by left|].
    apply list_elem_of_singleton in Hin as ->. by eexists. }
  destruct (Hk "ts") as [cts Hts]; [by left|].
  assert (m !! "ts" = Some cts) as Hmts.
  { rewrite (pick_lookup _ _ _ Hp); [done | by left]. }
  assert (m !! metric = Some (Num xs)) as Hmm.
  { rewrite (pick_lookup _ _ _ Hp); [done|].
    repeat first [apply list_elem_of_here | apply list_elem_of_further]. }
  set (base := mkDataFrame (nrows d) m).
  exists (turn_frame metric xs base), cts.
  split; [done|]. split; [by rewrite turn_frame_ts|].
  split; [by apply turn_frame_metric|].
  split; [exact (turn_frame_up metric xs base)|].
  split; [exact (turn_frame_low metric xs base)|].
  split; [exact (fresh_ref_ne h data d Hd)|].
  rewrite alert_step_unfold.
  rewrite (bind_ok _ _ _ _ _ (emit_run _ _ _)).
  rewrite (bind_ok _ _ _ _ _ (select_copy_run _ _ _ _ _ _ Hd Hp)).
  rewrite (estimate_run h t data d metric xs) by done.
  unfold is_alert_of. cbn [fst].
  pose proof (estimate_run (<[fresh (dom h) := base]> h) (t ++ [Printed metric])
                (fresh (dom h)) base metric xs
                (lookup_insert_eq _ _ _) Hmm Hder) as Hest.
  rewrite insert_insert_eq in Hest. change (nrows base) with (nrows d) in Hest.
  rewrite (judge_other_ref data (fresh (dom h))) in Hest.
  destruct (judge data xs _ _) as [[v r0]|e].
  - rewrite (bind_ok _ _ _ _ _ Hest). cbn [fst snd]. by case_decide.
  - by rewrite (bind_raise _ _ _ _ _ Hest).
Qed.

(** X8.  A metric the estimator does not flag costs one line of output
    and nothing else: whatever the collaborators would do, the turn
    returns, sends no text and no photo, and leaves the snapshot as it
    was. *)
Theorem unflagged_metric_sends_nothing env data d metric xs h t :
  h !! data = Some d →
  snapshot_has d metric xs →
  is_alert_of (estimate metric data (mkWorld h t)) = Ok 0%Z →
  ∃ w', alert_step env data metric (mkWorld h t) = (Ok (), w')
        ∧ trace w' = t ++ [Printed metric]
        ∧ heap w' !! data = Some d.
Proof.
  intros Hd Hs Hv.
  destruct (alert_step_run env data d metric xs h t Hd Hs)
    as (fr & cts & _ & _ & _ & _ & _ & Hne & Hstep).
  rewrite Hv in Hstep. rewrite decide_False in Hstep by done.
  eexists. split; [exact Hstep|]. cbn [trace heap]. split; [done|].
  by rewrite lookup_insert_ne.
Qed.

Lemma unflagged_metric_sends_nothing_witness :
  ∃ w', alert_step env_down 1%positive "ctr"
          (mkWorld {[ 1%positive := snapshot "ctr" ctr_calm ]} []) = (Ok (), w')
        ∧ trace w' = [] ++ [Printed "ctr"]
        ∧ heap w' !! 1%positive = Some (snapshot "ctr" ctr_calm).
Proof.
  apply (unflagged_metric_sends_nothing env_down 1%positive (snapshot "ctr" ctr_calm)
           "ctr" ctr_calm {[ 1%positive := snapshot "ctr" ctr_calm ]} []).
  - vm_compute; reflexivity.
  - split; [|split; [|split]].
    + intros k Hk.
      apply elem_of_cons in Hk as [->|Hk]; [vm_compute; by eexists|].
      apply elem_of_cons in Hk as [->|Hk]; [vm_compute; by eexists|].
      apply list_elem_of_singleton in Hk as ->. vm_compute; by eexists.
    + vm_compute; reflexivity.
    + reflexivity.
    + compute_done.
  - vm_compute; reflexivity.
Defined.

Lemma flagged_has_latest metric data h t d xs :
  h !! data = Some d → snapshot_has d metric xs →
  is_alert_of (estimate metric data (mkWorld h t)) = Ok 1%Z →
  ∃ cur, last xs = Some cur.
Proof.
  intros Hd (_ & Hm & _ & Hder) Hv.
  rewrite (estimate_run h t data d metric xs) in Hv by done.
  unfold is_alert_of, judge in Hv. cbn [fst] in Hv.
  destruct (last xs) as [cur|]; [by eexists | done].
Qed.

Lemma alert_text_layout metric cur change link :
  alert_text metric cur change link
  = alert_layout metric (format_cell_2f cur) (format_2pct change) link.
Proof. reflexivity. Qed.

Lemma format_2pct_percent v : ∃ digits, format_2pct v = digits +:+ "%".
Proof.
  destruct v as [q| | |];
    [exists (format_2f (q * 100)) | exists "inf" | exists "-inf" | exists "nan"];
    reflexivity.
Qed.

(** X9.  A flagged metric with a previous observation and a latest value
    that a float64 holds, when the three calls succeed: the turn prints
    the metric, then sends one text and then one photo.  The text has the
    four lines of the alert: the capitalised metric, the latest value
    with two decimals, a change that ends with a percent sign, and the
    dashboard link; the photo carries the time column, the series and the
    two bounds the estimator computed. *)
Theorem flagged_metric_is_notified env data d metric pre prev cur h t :
  h !! data = Some d →
  snapshot_has d metric (pre ++ [prev; cur]) →
  is_alert_of (estimate metric data (mkWorld h t)) = Ok 1%Z →
  cell_exact cur →
  (∀ c, savefig env c = true) →
  (∀ s, sendMessage env s = true) →
  (∀ c, sendPhoto env c = true) →
  ∃ w' cts ups lows digits,
    columns d !! "ts" = Some cts
    ∧ column_of (estimate metric data (mkWorld h t)).2 data "up" = Some ups
    ∧ column_of (estimate metric data (mkWorld h t)).2 data "low" = Some lows
    ∧ alert_step env data metric (mkWorld h t) = (Ok (), w')
    ∧ trace w'
      = t ++ [Printed metric;
              SentMessage (alert_layout metric (format_cell_2f cur)
                             (digits +:+ "%") (url env));
              SentPhoto (mkChart (metric +:+ ".png") metric cts
                           (pre ++ [prev; cur]) ups lows)]
    ∧ heap w' !! data = Some d.
Proof.
  intros Hd Hs Hv _ Hfig Hmsg Hphoto.
  destruct (alert_step_run env data d metric _ h t Hd Hs)
    as (fr & cts & Hts & Hfts & Hfm & Hfup & Hflow & Hne & Hstep).
  rewrite Hv in Hstep. rewrite decide_True in Hstep by done.
  rewrite (notify_run env metric _ fr _ _ (pre ++ [prev; cur]) cts
             (turn_up metric (nrows d) (pre ++ [prev; cur]))
             (turn_low metric (nrows d) (pre ++ [prev; cur])) cur) in Hstep;
    [| apply lookup_insert_eq | done | done | done | done |].
  2:{ rewrite last_app. done. }
  rewrite nth_last_snoc2, deliver_run, Hfig, Hmsg, Hphoto in Hstep.
  rewrite alert_text_layout in Hstep.
  destruct (format_2pct_percent (percent_change cur prev)) as [digits Hpct].
  rewrite Hpct in Hstep.
  destruct Hs as (_ & Hm & _ & Hder).
  eexists _, cts, _, _, digits. split; [done|].
  rewrite (estimate_run h t data d metric _) by done. cbn [snd].
  split; [apply column_of_insert, turn_frame_up|].
  split; [apply column_of_insert, turn_frame_low|].
  split; [exact Hstep|]. cbn [trace heap]. split.
  - by rewrite <- !app_assoc.
  - by rewrite lookup_insert_ne.
Qed.

Lemma flagged_metric_is_notified_witness :
  ∃ w' cts ups lows digits,
    columns two_metrics !! "ts" = Some cts
    ∧ column_of (estimate "views" 1%positive (mkWorld two_metrics_heap [])).2 1%positive "up"
      = Some ups
    ∧ column_of (estimate "views" 1%positive (mkWorld two_metrics_heap [])).2 1%positive "low"
      = Some lows
    ∧ alert_step env_ok 1%positive "views" (mkWorld two_metrics_heap []) = (Ok (), w')
    ∧ trace w'
      = [] ++ [Printed "views";
               SentMessage (alert_layout "views" (format_cell_2f (Some 91))
                              (digits +:+ "%") (url env_ok));
               SentPhoto (mkChart ("views" +:+ ".png") "views" cts
                            ([Some 10; Some 12; Some 11; Some 13] ++ [Some 90; Some 91])
                            ups lows)]
    ∧ heap w' !! 1%positive = Some two_metrics.
Proof.
  apply (flagged_metric_is_notified env_ok 1%positive two_metrics "views"
           [Some 10; Some 12; Some 11; Some 13] (Some 90) (Some 91) two_metrics_heap []).
  - vm_compute; reflexivity.
  - split; [|split; [|split]].
    + intros k Hk.
      apply elem_of_cons in Hk as [->|Hk]; [vm_compute; by eexists|].
      apply elem_of_cons in Hk as [->|Hk]; [vm_compute; by eexists|].
      apply list_elem_of_singleton in Hk as ->. vm_compute; by eexists.
    + vm_compute; reflexivity.
    + reflexivity.
    + compute_done.
  - vm_compute; reflexivity.
  - intros q [= <-]. exists 91%Z, 0%Z. split; [reflexivity|]. split; [lia|]. reflexivity.
  - reflexivity.
  - reflexivity.
  - reflexivity.
Defined.

(** X10.  A flagged metric without a previous observation: the text needs
    [iloc[-2]], which raises the index error before anything is sent.
    The turn ends with [IndexError], the metric printed and nothing
    else. *)
Theorem flagged_single_observation_raises env data d metric xs h t :
  h !! data = Some d →
  snapshot_has d metric xs →
  is_alert_of (estimate metric data (mkWorld h t)) = Ok 1%Z →
  (length xs < 2)%nat →
  ∃ w', alert_step env data metric (mkWorld h t) = (Raise IndexError, w')
        ∧ trace w' = t ++ [Printed metric]
        ∧ heap w' !! data = Some d.
Proof.
  intros Hd Hs Hv Hlen.
  destruct (flagged_has_latest metric data h t d xs Hd Hs Hv) as [cur Hcur].
  destruct (alert_step_run env data d metric _ h t Hd Hs)
    as (fr & cts & Hts & Hfts & Hfm & Hfup & Hflow & Hne & Hstep).
  rewrite Hv in Hstep. rewrite decide_True in Hstep by done.
  rewrite (notify_run env metric _ fr _ _ xs cts
             (turn_up metric (nrows d) xs) (turn_low metric (nrows d) xs) cur) in Hstep;
    [| apply lookup_insert_eq | done | done | done | done | done].
  assert (nth_last 2 xs = None) as Hnone.
  { unfold nth_last. rewrite decide_False; [done | lia]. }
  rewrite Hnone in Hstep.
  eexists. split; [exact Hstep|]. cbn [trace heap]. split; [done|].
  by rewrite lookup_insert_ne.
Qed.

Lemma flagged_single_observation_raises_witness :
  ∃ w', alert_step env_ok 1%positive "ctr"
          (mkWorld {[ 1%positive := snapshot "ctr" ctr_single ]} []) = (Raise IndexError, w')
        ∧ trace w' = [] ++ [Printed "ctr"]
        ∧ heap w' !! 1%positive = Some (snapshot "ctr" ctr_single).
Proof.
  apply (flagged_single_observation_raises env_ok 1%positive (snapshot "ctr" ctr_single)
           "ctr" ctr_single {[ 1%positive := snapshot "ctr" ctr_single ]} []).
  - vm_compute; reflexivity.
  - split; [|split; [|split]].
    + intros k Hk.
      apply elem_of_cons in Hk as [->|Hk]; [vm_compute; by eexists|].
      apply elem_of_cons in Hk as [->|Hk]; [vm_compute; by eexists|].
      apply list_elem_of_singleton in Hk as ->. vm_compute; by eexists.
    + vm_compute; reflexivity.
    + reflexivity.
    + compute_done.
  - vm_compute; reflexivity.
  - cbn; lia.
Defined.

(** X11.  A call that fails ends the turn of a flagged metric where it
    fails.  If the figure cannot be saved the turn raises [RenderError]
    and nothing is sent; if the text cannot be sent it raises
    [NetworkError] and nothing is sent; if only the photo cannot be sent
    it raises [NetworkError] after the text has gone out: the channel
    has the text of the alert without its chart. *)
Theorem failed_call_ends_turn env data d metric pre prev cur h t :
  h !! data = Some d →
  snapshot_has d metric (pre ++ [prev; cur]) →
  is_alert_of (estimate metric data (mkWorld h t)) = Ok 1%Z →
  cell_exact cur →
  let res := alert_step env data metric (mkWorld h t) in
  ((∀ c, savefig env c = false) →
   res.1 = Raise RenderError ∧ trace res.2 = t ++ [Printed metric])
  ∧ ((∀ c, savefig env c = true) → (∀ s, sendMessage env s = false) →
     res.1 = Raise NetworkError ∧ trace res.2 = t ++ [Printed metric])
  ∧ ((∀ c, savefig env c = true) → (∀ s, sendMessage env s = true) →
     (∀ c, sendPhoto env c = false) →
     res.1 = Raise NetworkError
     ∧ ∃ digits,
         trace res.2
         = t ++ [Printed metric;
                 SentMessage (alert_layout metric (format_cell_2f cur)
                                (digits +:+ "%") (url env))]).
Proof.
  intros Hd Hs Hv _.
  destruct (alert_step_run env data d metric _ h t Hd Hs)
    as (fr & cts & Hts & Hfts & Hfm & Hfup & Hflow & Hne & Hstep).
  rewrite Hv in Hstep. rewrite decide_True in Hstep by done.
  rewrite (notify_run env metric _ fr _ _ (pre ++ [prev; cur]) cts
             (turn_up metric (nrows d) (pre ++ [prev; cur]))
             (turn_low metric (nrows d) (pre ++ [prev; cur])) cur) in Hstep;
    [| apply lookup_insert_eq | done | done | done | done |].
  2:{ rewrite last_app. done. }
  rewrite nth_last_snoc2, deliver_run in Hstep.
  cbv zeta. rewrite Hstep. split; [|split].
  - intros Hfig. by rewrite Hfig.
  - intros Hfig Hmsg. by rewrite Hfig, Hmsg.
  - intros Hfig Hmsg Hphoto. rewrite Hfig, Hmsg, Hphoto. cbn [fst snd trace].
    split; [done|].
    destruct (format_2pct_percent (percent_change cur prev)) as [digits Hpct].
    exists digits. by rewrite alert_text_layout, Hpct, <- app_assoc.
Qed.

Lemma failed_call_ends_turn_witness :
  (alert_step env_no_photo 1%positive "views" (mkWorld two_metrics_heap [])).1
  = Raise NetworkError
  ∧ ∃ digits,
      trace (alert_step env_no_photo 1%positive "views" (mkWorld two_metrics_heap [])).2
      = [] ++ [Printed "views";
               SentMessage (alert_layout "views" (format_cell_2f (Some 91))
                              (digits +:+ "%") (url env_no_photo))].
Proof.
  destruct (failed_call_ends_turn env_no_photo 1%positive two_metrics "views"
              [Some 10; Some 12; Some 11; Some 13] (Some 90) (Some 91) two_metrics_heap [])
    as (_ & _ & Hphoto).
  - vm_compute; reflexivity.
  - split; [|split; [|split]].
    + intros k Hk.
      apply elem_of_cons in Hk as [->|Hk]; [vm_compute; by eexists|].
      apply elem_of_cons in Hk as [->|Hk]; [vm_compute; by eexists|].
      apply list_elem_of_singleton in Hk as ->. vm_compute; by eexists.
    + vm_compute; reflexivity.
    + reflexivity.
    + compute_done.
  - vm_compute; reflexivity.
  - intros q [= <-]. exists 91%Z, 0%Z. split; [reflexivity|]. split; [lia|]. reflexivity.
  - apply Hphoto; reflexivity.
Defined.

(** ** A snapshot without the metric *)

Lemma pick_missing cols before key after :
  (∀ k, k ∈ before → is_Some (cols !! k)) → cols !! key = None →
  pick cols (before ++ key :: after) = Raise (KeyError key).
Proof.
  intros Hb Hk. induction before as [|k0 before IH]; cbn.
  - by rewrite Hk.
  - destruct (Hb k0) as [c ->]; [by left|].
    rewrite IH; [done|]. intros k Hin. apply Hb. by right.
Qed.

(** X12.  A metric the snapshot has no column for: selecting the columns
    raises [KeyError] for it.  The turn has printed the metric, no copy
    was made and nothing was sent. *)
Theorem unknown_metric_raises_key_error env data d metric h t :
  h !! data = Some d →
  (∀ k, k ∈ ["ts"; "date"; "hm"] → is_Some (columns d !! k)) →
  columns d !! metric = None →
  alert_step env data metric (mkWorld h t)
  = (Raise (KeyError metric), mkWorld h (t ++ [Printed metric])).
Proof.
  intros Hd Hk Hm. rewrite alert_step_unfold.
  rewrite (bind_ok _ _ _ _ _ (emit_run _ _ _)).
  erewrite bind_raise; [reflexivity|].
  unfold select_copy, mbind, M_bind, deref. cbn [heap]. rewrite Hd.
  change ["ts"; "date"; "hm"; metric] with (["ts"; "date"; "hm"] ++ [metric]).
  by rewrite (pick_missing (columns d) ["ts"; "date"; "hm"] metric []).
Qed.

Lemma unknown_metric_raises_key_error_witness :
  alert_step env_ok 1%positive "messages" (mkWorld two_metrics_heap [])
  = (Raise (KeyError "messages"), mkWorld two_metrics_heap ([] ++ [Printed "messages"])).
Proof.
  apply (unknown_metric_raises_key_error env_ok 1%positive two_metrics "messages"
           two_metrics_heap []).
  - vm_compute; reflexivity.
  - intros k Hk.
    apply elem_of_cons in Hk as [->|Hk]; [vm_compute; by eexists|].
    apply elem_of_cons in Hk as [->|Hk]; [vm_compute; by eexists|].
    apply list_elem_of_singleton in Hk as ->. vm_compute; by eexists.
  - vm_compute; reflexivity.
Defined.

(** ** What a run never does *)

Lemma keeps_ret r0 {A} (a : A) : keeps r0 (mret a).
Proof. by intros w. Qed.

Lemma keeps_raise r0 {A} e : keeps r0 (raise e : M A).
Proof. by intros w. Qed.

Lemma keeps_bind r0 {A B} (m : M A) (f : A → M B) :
  keeps r0 m → (∀ a, keeps r0 (f a)) → keeps r0 (m ≫= f).
Proof.
  intros Hm Hf w. unfold mbind, M_bind.
  destruct (Hm w) as [Hh Ht]. destruct (m w) as [[a|e] w1]; cbn [snd] in *.
  - destruct (Hf a w1) as [Hh' Ht']. split; congruence.
  - done.
Qed.

Lemma keeps_deref r0 r : keeps r0 (deref r).
Proof. intros w. unfold deref. by destruct (heap w !! r). Qed.

Lemma keeps_getitem r0 r key : keeps r0 (getitem r key).
Proof.
  unfold getitem. apply keeps_bind; [apply keeps_deref|].
  intros df. destruct (columns df !! key); [apply keeps_ret | apply keeps_raise].
Qed.

Lemma keeps_getnum_or r0 e r key : keeps r0 (getnum_or e r key).
Proof.
  unfold getnum_or. apply keeps_bind; [apply keeps_getitem|].
  intros [vs|vs]; [apply keeps_ret | apply keeps_raise].
Qed.

Lemma keeps_getnum r0 r key : keeps r0 (getnum r key).
Proof.
  unfold getnum. apply keeps_bind; [apply keeps_getitem|].
  intros [vs|[|s ss]]; [apply keeps_ret | apply keeps_ret | apply keeps_raise].
Qed.

Lemma keeps_rolling_mean_center r0 n s : keeps r0 (rolling_mean_center n s).
Proof.
  unfold rolling_mean_center. case_decide; [apply keeps_raise | apply keeps_ret].
Qed.

Lemma keeps_iloc r0 k s : keeps r0 (iloc_neg k s).
Proof. intros w. rewrite iloc_neg_run. by destruct (nth_last k s). Qed.

Lemma keeps_store r0 r df : r ≠ r0 → keeps r0 (store r df).
Proof. intros Hne w. unfold store. cbn. by rewrite lookup_insert_ne. Qed.

Lemma keeps_setitem r0 r key vs : r ≠ r0 → keeps r0 (setitem r key vs).
Proof.
  intros Hne. unfold setitem. apply keeps_bind; [apply keeps_deref|].
  intros df. by apply keeps_store.
Qed.

Lemma keeps_setitem_scalar r0 r key v : r ≠ r0 → keeps r0 (setitem_scalar r key v).
Proof.
  intros Hne. unfold setitem_scalar. apply keeps_bind; [apply keeps_deref|].
  intros df. by apply keeps_store.
Qed.

Ltac keeps_steps :=
  repeat first
    [ apply keeps_ret
    | apply keeps_raise
    | apply keeps_getnum
    | apply keeps_getnum_or
    | apply keeps_rolling_mean_center
    | apply keeps_getitem
    | apply keeps_iloc
    | apply keeps_setitem; assumption
    | apply keeps_setitem_scalar; assumption
    | apply keeps_bind; [|intros ?]
    | match goal with |- keeps _ (if ?b then _ else _) => destruct b end ].

(** The estimators write to the frame they are given, and to nothing
    else. *)
Lemma keeps_check_anomaly r0 r metric a n : r ≠ r0 → keeps r0 (check_anomaly r metric a n).
Proof. intros Hne. unfold check_anomaly. keeps_steps. Qed.

Lemma keeps_check_anomaly_ctr r0 r metric : r ≠ r0 → keeps r0 (check_anomaly_ctr r metric).
Proof. intros Hne. unfold check_anomaly_ctr. keeps_steps. Qed.

Lemma keeps_estimate r0 r metric : r ≠ r0 → keeps r0 (estimate metric r).
Proof.
  intros Hne. unfold estimate. case_decide.
  - by apply keeps_check_anomaly_ctr.
  - by apply keeps_check_anomaly.
Qed.

Lemma shaped_ret r0 : shaped r0 (mret ()).
Proof. intros w. split; [done|]. exists []. split; [by rewrite app_nil_r | by left]. Qed.

Lemma shaped_bind r0 {A} (m : M A) (f : A → M ()) :
  keeps r0 m → (∀ a, shaped r0 (f a)) → shaped r0 (m ≫= f).
Proof.
  intros Hm Hf w. unfold mbind, M_bind.
  destruct (Hm w) as [Hh Ht]. destruct (m w) as [[a|e] w1]; cbn [snd] in *.
  - destruct (Hf a w1) as [Hh' (tail & Ht' & Htail)].
    split; [congruence|]. exists tail. by rewrite Ht', Ht.
  - split; [done|]. exists []. split; [by rewrite app_nil_r | by left].
Qed.

Lemma shaped_deliver r0 env c msg :
  shaped r0 (plt_savefig env c;; bot_sendMessage env msg;; bot_sendPhoto env c).
Proof.
  intros [h t]. rewrite deliver_run.
  destruct (savefig env c), (sendMessage env msg), (sendPhoto env c);
    cbn [fst snd heap trace]; (split; [done|]).
  - exists [SentMessage msg; SentPhoto c]. split; [by rewrite <- app_assoc|].
    right. right. by eexists _, _.
  - exists [SentMessage msg]. split; [done|]. right. left. by eexists.
  - exists []. split; [by rewrite app_nil_r | by left].
  - exists []. split; [by rewrite app_nil_r | by left].
  - exists []. split; [by rewrite app_nil_r | by left].
  - exists []. split; [by rewrite app_nil_r | by left].
  - exists []. split; [by rewrite app_nil_r | by left].
  - exists []. split; [by rewrite app_nil_r | by left].
Qed.

Lemma shaped_notify r0 env metric r : shaped r0 (notify env metric r).
Proof.
  unfold notify.
  do 7 (apply shaped_bind; [by keeps_steps | intros ?]).
  apply shaped_deliver.
Qed.

Lemma select_copy_cases r keys h t :
  (∃ e, select_copy r keys (mkWorld h t) = (Raise e, mkWorld h t))
  ∨ (∃ d m, h !! r = Some d
            ∧ select_copy r keys (mkWorld h t)
              = (Ok (fresh (dom h)),
                 mkWorld (<[fresh (dom h) := mkDataFrame (nrows d) m]> h) t)).
Proof.
  unfold select_copy, mbind, M_bind, deref. cbn [heap].
  destruct (h !! r) as [d|]; [|left; by eexists].
  destruct (pick (columns d) keys) as [m|e]; [|left; by eexists].
  right. by exists d, m.
Qed.

(** One turn: the frames that were in the store stay as they were, and
    the trace grows by the printed line and a tail. *)
Lemma alert_step_shape env data metric w :
  (∀ r0, is_Some (heap w !! r0) →
         heap (alert_step env data metric w).2 !! r0 = heap w !! r0)
  ∧ ∃ tail,
      trace (alert_step env data metric w).2 = trace w ++ Printed metric :: tail
      ∧ turn_tail (alert_step env data metric w).1 tail.
Proof.
  destruct w as [h t]. rewrite alert_step_unfold.
  rewrite (bind_ok _ _ _ _ _ (emit_run _ _ _)).
  destruct (select_copy_cases data ["ts"; "date"; "hm"; metric] h (t ++ [Printed metric]))
    as [[e Hsel]|(d & m & Hd & Hsel)].
  { rewrite (bind_raise _ _ _ _ _ Hsel). cbn [fst snd heap trace].
    split; [done|]. exists []. split; [done | by left]. }
  rewrite (bind_ok _ _ _ _ _ Hsel). cbn [heap trace].
  set (r := fresh (dom h)).
  set (w2 := mkWorld (<[r := mkDataFrame (nrows d) m]> h) (t ++ [Printed metric])).
  assert (∀ r0, is_Some (h !! r0) → r ≠ r0) as Hfresh.
  { intros r0 [df Hr0]. by apply (fresh_ref_ne h r0 df). }
  assert (∀ r0, r ≠ r0 →
            shaped r0 (res ← estimate metric r;
                       if decide (res.1 = 1%Z) then notify env metric res.2 else mret ()))
    as Hshape.
  { intros r0 Hne. apply shaped_bind; [by apply keeps_estimate|].
    intros res. case_decide; [apply shaped_notify | apply shaped_ret]. }
  split.
  - intros r0 Hr0. destruct (Hshape r0 (Hfresh r0 Hr0) w2) as [Hh _].
    rewrite Hh. unfold w2. cbn [heap]. rewrite lookup_insert_ne; [done|].
    by apply Hfresh.
  - destruct (Hshape (Pos.succ r) (Pos.succ_discr r) w2) as [_ (tail & Ht & Htail)].
    exists tail. split; [|done]. rewrite Ht. unfold w2. cbn [trace].
    by rewrite <- app_assoc.
Qed.

(** X13.  A run only adds frames to the store.  Whatever the snapshot
    holds, whatever the collaborators do and however the run ends, every
    frame that was in the store before the run (the snapshot among them)
    is there unchanged after it: the estimators only ever write to the
    copies the dispatcher makes. *)
Theorem run_only_adds_frames env data metrics w :
  heap w ⊆ heap (alert_loop env data metrics w).2.
Proof.
  revert w. induction metrics as [|metric rest IH]; intros w; [done|].
  rewrite alert_loop_cons.
  destruct (alert_step_shape env data metric w) as [Hkeep _].
  assert (heap w ⊆ heap (alert_step env data metric w).2) as Hstep.
  { apply map_subseteq_spec. intros r0 df Hr0.
    rewrite Hkeep; [done | by eexists]. }
  destruct (alert_step env data metric w) as [[[]|e] w1]; cbn [snd] in *.
  - by etrans; [exact Hstep | apply IH].
  - done.
Qed.

Lemma turn_tail_counts o tail :
  turn_tail o tail →
  printed tail = []
  ∧ (length (photos tail) ≤ length (messages tail))%nat
  ∧ (length (messages tail) ≤ 1)%nat
  ∧ (o = Ok () → length (photos tail) = length (messages tail)).
Proof.
  intros [->|[(msg & -> & ->)|(msg & c & -> & ->)]]; cbn; repeat split; try lia; done.
Qed.

(** The trace of a run, turn after turn. *)
Lemma alert_loop_trace env data metrics w :
  ∃ evs,
    trace (alert_loop env data metrics w).2 = trace w ++ evs
    ∧ printed evs `prefix_of` metrics
    ∧ ((alert_loop env data metrics w).1 = Ok () → printed evs = metrics)
    ∧ (length (messages evs) ≤ length (printed evs))%nat
    ∧ (length (photos evs) ≤ length (messages evs))%nat
    ∧ (length (messages evs) ≤ S (length (photos evs)))%nat
    ∧ ((alert_loop env data metrics w).1 = Ok () →
       length (photos evs) = length (messages evs)).
Proof.
  revert w. induction metrics as [|metric rest IH]; intros w.
  { exists []. cbn. rewrite app_nil_r. repeat split; try done; lia. }
  rewrite alert_loop_cons.
  destruct (alert_step_shape env data metric w) as [_ (tail & Ht & Htail)].
  destruct (turn_tail_counts _ _ Htail) as (Hp & Hpm & Hm1 & Hok).
  destruct (alert_step env data metric w) as [[[]|e] w1]; cbn [fst snd] in *.
  - destruct (IH w1) as (evs & Hevs & Hpre & Hall & Hmp & Hpm' & Hmp' & Hok').
    exists (Printed metric :: tail ++ evs).
    unfold printed, messages, photos in *. cbn [omap list_omap].
    rewrite !omap_app, !length_app, Hp. cbn [app length].
    specialize (Hok eq_refl).
    split; [by rewrite Hevs, Ht, <- app_assoc|].
    split; [by apply prefix_cons|].
    split; [intros Ho; by rewrite Hall|].
    repeat split; try lia. intros Ho. specialize (Hok' Ho). lia.
  - exists (Printed metric :: tail).
    unfold printed, messages, photos in *. cbn [omap list_omap].
    rewrite Hp. cbn [length].
    split; [done|]. split; [apply prefix_cons, prefix_nil|].
    repeat split; try done; lia.
Qed.

(** X14.  The metrics are evaluated in the order of the list, one turn
    each.  In every run the names printed are a prefix of the list of
    metrics, and the whole list when the run returns. *)
Theorem metrics_evaluated_in_order env data metrics w :
  ∃ evs,
    trace (alert_loop env data metrics w).2 = trace w ++ evs
    ∧ printed evs `prefix_of` metrics
    ∧ ((alert_loop env data metrics w).1 = Ok () → printed evs = metrics).
Proof.
  destruct (alert_loop_trace env data metrics w) as (evs & Ht & Hpre & Hall & _).
  by exists evs.
Qed.

(** X15.  Texts and photos go out in pairs.  In every run each photo
    follows a text of its own: there are never more photos than texts,
    never more texts than metrics evaluated, at most one text without its
    photo (the one of the turn that failed), and none when the run
    returns. *)
Theorem photos_pair_with_messages env data metrics w :
  ∃ evs,
    trace (alert_loop env data metrics w).2 = trace w ++ evs
    ∧ (length (photos evs) ≤ length (messages evs))%nat
    ∧ (length (messages evs) ≤ S (length (photos evs)))%nat
    ∧ (length (messages evs) ≤ length (printed evs))%nat
    ∧ ((alert_loop env data metrics w).1 = Ok () →
       length (photos evs) = length (messages evs)).
Proof.
  destruct (alert_loop_trace env data metrics w)
    as (evs & Ht & _ & _ & Hmp & Hpm & Hmp' & Hok).
  by exists evs.
Qed.

(** * A flat history *)

Lemma insert_sorted_Forall_P (P : Q → Prop) x l :
  P x → Forall P l → Forall P (insert_sorted x l).
Proof.
  intros Hx. induction 1 as [|y l Hy Hl IH]; cbn.
  - by constructor.
  - destruct (Qle_bool x y); repeat constructor; auto.
Qed.

Lemma sort_Forall (P : Q → Prop) l : Forall P l → Forall P (sort l).
Proof.
  induction 1 as [|x l Hx Hl IH]; cbn; [constructor|].
  by apply insert_sorted_Forall_P.
Qed.

Lemma nth_Forall (P : Q → Prop) (s : list Q) j :
  Forall P s → (j < length s)%nat → P (nth j s 0).
Proof.
  intros Hs Hj. rewrite Forall_forall in Hs. apply Hs.
  apply list_elem_of_In, nth_In. lia.
Qed.

Lemma inject_nat_minus_1 (N : nat) :
  (1 ≤ N)%nat → inject_Z (Z.of_nat (N - 1)) == inject_Z (Z.of_nat N) - 1.
Proof.
  intros H. rewrite Nat2Z.inj_sub by done. unfold Z.sub.
  rewrite inject_Z_plus. reflexivity.
Qed.

Lemma interp_first s : interp s 0 == nth 0 s 0.
Proof. unfold interp. change (Z.to_nat (Qfloor 0)) with 0%nat. cbn. ring. Qed.

Lemma interp_last s (k : nat) : interp s (inject_Z (Z.of_nat k)) == nth k s 0.
Proof. unfold interp. rewrite Qfloor_Z, Nat2Z.id. ring. Qed.

(** A quantile of a window lies between any two bounds of its values. *)
Lemma quantile_between lo hi q obs :
  obs ≠ [] → 0 <= q → q <= 1 →
  Forall (λ y, lo <= y ∧ y <= hi) obs →
  lo <= quantile q obs ∧ quantile q obs <= hi.
Proof.
  intros Hne Hq0 Hq1 Hall. rewrite quantile_interp.
  set (s := sort obs).
  assert (length s = length obs) as Hlen by apply length_sort.
  assert (1 ≤ length obs)%nat as HN by (destruct obs; [done | cbn; lia]).
  assert (Forall (λ y, lo <= y ∧ y <= hi) s) as Hs by by apply sort_Forall.
  assert (StronglySorted Qle s) as Hsorted by apply sort_sorted.
  pose proof (inject_nat_minus_1 (length obs) HN) as Hpred.
  assert (0 <= inject_Z (Z.of_nat (length obs - 1))) as Hpos.
  { change 0 with (inject_Z 0). rewrite <- Zle_Qle. lia. }
  set (h := q * (inject_Z (Z.of_nat (length obs)) - 1)).
  assert (0 <= h) as Hh0.
  { unfold h. apply Qmult_le_0_compat; [done|]. by rewrite <- Hpred. }
  assert (h <= inject_Z (Z.of_nat (length obs - 1))) as HhN.
  { unfold h. rewrite <- Hpred.
    rewrite <- (Qmult_1_l (inject_Z (Z.of_nat (length obs - 1)))) at 2.
    by apply Qmult_le_compat_r. }
  split.
  - apply (Qle_trans _ (interp s 0)).
    + rewrite interp_first. apply (nth_Forall _ s 0 Hs). lia.
    + apply interp_mono; [done | apply Qle_refl | done |].
      rewrite Hlen, <- Hpred. done.
  - apply (Qle_trans _ (interp s (inject_Z (Z.of_nat (length obs - 1))))).
    + apply interp_mono; [done | done | done |].
      rewrite Hlen, <- Hpred. apply Qle_refl.
    + rewrite interp_last. apply (nth_Forall _ s _ Hs). lia.
Qed.

Lemma sum_const c l : Forall (λ y, y == c) l → sum l == inject_Z (Z.of_nat (length l)) * c.
Proof.
  induction 1 as [|y l Hy Hl IH]; cbn [sum foldr length].
  - ring.
  - change (foldr Qplus 0 l) with (sum l). rewrite IH, Hy.
    rewrite Nat2Z.inj_succ. unfold Z.succ. rewrite inject_Z_plus. ring.
Qed.

Lemma mean_const c l : l ≠ [] → Forall (λ y, y == c) l → mean l == c.
Proof.
  intros Hne Hall. unfold mean. rewrite (sum_const c l Hall).
  assert (¬ inject_Z (Z.of_nat (length l)) == 0) as Hnz.
  { change 0 with (inject_Z 0). rewrite inject_Z_injective.
    destruct l; [done | cbn; lia]. }
  field. done.
Qed.

(** An average of raw bounds that all equal [c], where they are defined. *)
Lemma average_const xs raw first last c v :
  (∀ j y, (j < length xs)%nat → raw j = Some y → y == c) →
  Spec.average xs raw first last = Some v → v == c.
Proof.
  intros Hraw. unfold Spec.average. cbv zeta.
  destruct (omap raw (seq _ _)) as [|z zs] eqn:E; [done|].
  intros Hv. injection Hv as <-. apply mean_const; [done|].
  rewrite <- E. apply Forall_forall. intros y Hy.
  apply list_elem_of_omap in Hy as (j & Hj & Hy).
  apply elem_of_seq in Hj. apply (Hraw j y); [|done].
  clear -Hj. lia.
Qed.

Lemma mapM_id_elem (w : series) obs y :
  mapM id w = Some obs → y ∈ obs → Some y ∈ w.
Proof.
  intros Hw Hy. apply mapM_Some in Hw.
  apply list_elem_of_lookup in Hy as [i Hi].
  destruct (Forall2_lookup_r _ _ _ _ _ Hw Hi) as (c & Hc & Heq).
  cbn in Heq. subst c. by apply list_elem_of_lookup_2 in Hc.
Qed.

(** Before a position of the flat part, the window holds [c] only. *)
Lemma preceding_flat n k c x j obs :
  (j ≤ k)%nat →
  Spec.preceding n (replicate k (Some c) ++ [x]) j = Some obs →
  Forall (λ y, c <= y ∧ y <= c) obs.
Proof.
  intros Hj Hobs. unfold Spec.preceding in Hobs.
  case_decide as Hn; [|done].
  apply Forall_forall. intros y Hy.
  pose proof (mapM_id_elem _ _ _ Hobs Hy) as Hin.
  apply list_elem_of_lookup in Hin as [i Hi].
  apply lookup_take_Some in Hi as [Hi Hin]. rewrite lookup_drop in Hi.
  rewrite lookup_app_l in Hi by (rewrite length_replicate; lia).
  apply lookup_replicate in Hi as [Hi _]. injection Hi as ->.
  split; apply Qle_refl.
Qed.

Lemma raw_flat a n k c x j :
  (1 ≤ n)%nat → (j ≤ k)%nat →
  (∀ y, Spec.low_raw a n (replicate k (Some c) ++ [x]) j = Some y → y == c)
  ∧ (∀ y, Spec.up_raw a n (replicate k (Some c) ++ [x]) j = Some y → y == c).
Proof.
  intros Hn Hj.
  unfold Spec.low_raw, Spec.up_raw, Spec.iqr, Spec.q25, Spec.q75, Spec.percentile.
  destruct (Spec.preceding n _ j) as [obs|] eqn:Hobs; cbn; [|done].
  assert (length obs = n) as Hlen.
  { apply (preceding_length n _ j obs Hobs).
    rewrite length_app, length_replicate. cbn. lia. }
  assert (obs ≠ []) as Hne by (intros ->; cbn in Hlen; lia).
  pose proof (preceding_flat n k c x j obs Hj Hobs) as Hall.
  destruct (quantile_between c c (1#4) obs Hne) as [H1 H2]; [done | done | done |].
  destruct (quantile_between c c (3#4) obs Hne) as [H3 H4]; [done | done | done |].
  assert (quantile (1#4) obs == c) as E1 by by apply Qle_antisym.
  assert (quantile (3#4) obs == c) as E3 by by apply Qle_antisym.
  split; intros y Hy; injection Hy as <-; rewrite E1, E3; ring.
Qed.

(** X16.  After a flat history the envelope has no width.  When the
    observations before the latest one are all the same count [c], small
    enough for a window of [n] of them to add up within 2^53, and there
    are at least [n] of them, [low[last]] and [up[last]] both equal [c]
    whatever the spread factor: [check_anomaly] flags a latest value
    that a float64 holds exactly when it is a number other than [c]. *)
Theorem flat_history_zero_width h t r df metric (z : Z) c x k a n :
  h !! r = Some df →
  columns df !! metric = Some (Num (replicate k (Some c) ++ [x])) →
  metric ∉ derived_columns →
  (1 ≤ n)%nat →
  (n ≤ k)%nat →
  c = inject_Z z →
  (Z.abs z * Z.of_nat n ≤ 2 ^ 53)%Z →
  cell_exact x →
  ∃ v l u,
    (check_anomaly r metric a n (mkWorld h t)).1 = Ok (v, r)
    ∧ cell_of (check_anomaly r metric a n (mkWorld h t)).2 r "low" k = Some (Some l)
    ∧ cell_of (check_anomaly r metric a n (mkWorld h t)).2 r "up" k = Some (Some u)
    ∧ l == c ∧ u == c
    ∧ (v = 1%Z ↔ ∃ q, x = Some q ∧ ¬ q == c).
Proof.
  intros Hr Hm Hd Hn Hk _ _ _.
  set (xs := replicate k (Some c) ++ [x]) in *.
  assert (length xs = S k) as Hlen.
  { unfold xs. rewrite length_app, length_replicate. cbn. lia. }
  rewrite (check_anomaly_run h t r df metric a n xs) by done. cbn [fst snd].
  rewrite (cell_of_insert _ _ _ _ _ _ _ (annotated_low a n xs df)).
  rewrite (cell_of_insert _ _ _ _ _ _ _ (annotated_up a n xs df)).
  assert (k < length xs)%nat as Hi by lia.
  destruct (raw_defined a n xs k) as [[lr Hlr] [ur Hur]]; [done | done | |].
  { intros j Hj. exists c. unfold xs.
    rewrite lookup_app_l by (rewrite length_replicate; lia).
    apply lookup_replicate_2. lia. }
  assert (∀ j y, (j < length xs)%nat → Spec.low_raw a n xs j = Some y → y == c) as Hlowc.
  { intros j y Hj. apply (raw_flat a n k c x j); [done | lia]. }
  assert (∀ j y, (j < length xs)%nat → Spec.up_raw a n xs j = Some y → y == c) as Hupc.
  { intros j y Hj. apply (raw_flat a n k c x j); [done | lia]. }
  assert (∃ l, col_low a n xs !! k = Some (Some l) ∧ l == c) as (l & Hl & Hlc).
  { rewrite col_low_lookup by done. unfold Spec.low_width, Spec.smooth_width.
    destruct (average_defined xs (Spec.low_raw a n xs)
                (Z.of_nat k - Z.of_nat n / 2) (Z.of_nat k + (Z.of_nat n - 1) / 2) k lr)
      as [l Hl]; [done | | done |].
    { clear -Hn. Z.div_mod_to_equations. lia. }
    exists l. rewrite Hl. split; [done|].
    exact (average_const xs _ _ _ c l Hlowc Hl). }
  assert (∃ u, col_up a n xs !! k = Some (Some u) ∧ u == c) as (u & Hu & Huc).
  { rewrite col_up_lookup by done. unfold Spec.up_width, Spec.smooth_width.
    destruct (average_defined xs (Spec.up_raw a n xs)
                (Z.of_nat k - Z.of_nat n / 2) (Z.of_nat k + (Z.of_nat n - 1) / 2) k ur)
      as [u Hu]; [done | | done |].
    { clear -Hn. Z.div_mod_to_equations. lia. }
    exists u. rewrite Hu. split; [done|].
    exact (average_const xs _ _ _ c u Hupc Hu). }
  exists (verdict x (Some l) (Some u)), l, u.
  split.
  { apply judge_verdict.
    - unfold xs. by rewrite last_snoc.
    - rewrite last_lookup, length_col_low, Hlen. done.
    - rewrite last_lookup, length_col_up, Hlen. done. }
  split; [done|]. split; [done|]. split; [done|]. split; [done|].
  rewrite verdict_spec. destruct x as [q|]; cbn.
  - split.
    + intros Hout. exists q. split; [done|]. intros Hq.
      rewrite Hlc, Huc, Hq in Hout.
      destruct Hout as [Hout|Hout]; by apply (Qlt_irrefl c).
    + intros (q' & Hq' & Hne). injection Hq' as <-.
      rewrite Hlc, Huc.
      destruct (Qlt_le_dec q c) as [?|Hge]; [by left|].
      destruct (Qlt_le_dec c q) as [?|Hle]; [by right|].
      exfalso. apply Hne. by apply Qle_antisym.
  - split; [tauto|]. by intros (q' & Hq' & _).
Qed.

Lemma flat_history_zero_width_witness :
  ∃ v l u,
    (check_anomaly 1%positive "views" 3 5
       (mkWorld {[ 1%positive := snapshot "views" flat_then_move ]} [])).1 = Ok (v, 1%positive)
    ∧ cell_of (check_anomaly 1%positive "views" 3 5
                 (mkWorld {[ 1%positive := snapshot "views" flat_then_move ]} [])).2
              1%positive "low" 5 = Some (Some l)
    ∧ cell_of (check_anomaly 1%positive "views" 3 5
                 (mkWorld {[ 1%positive := snapshot "views" flat_then_move ]} [])).2
              1%positive "up" 5 = Some (Some u)
    ∧ l == 10 ∧ u == 10
    ∧ (v = 1%Z ↔ ∃ q, Some 11 = Some q ∧ ¬ q == 10).
Proof.
  apply (flat_history_zero_width {[ 1%positive := snapshot "views" flat_then_move ]} []
           1%positive (snapshot "views" flat_then_move) "views" 10%Z 10 (Some 11) 5 3 5).
  - vm_compute; reflexivity.
  - vm_compute; reflexivity.
  - compute_done.
  - lia.
  - lia.
  - reflexivity.
  - lia.
  - intros q [= <-]. exists 11%Z, 0%Z. split; [reflexivity|]. split; [lia|]. reflexivity.
Defined.

(** * The sign of the change in the text *)



(** * A window of no observation *)

Lemma window_at_zero (s : series) i : window_at 0 false s i = [].
Proof.
  unfold window_at, window_end, window_start, window_offset. cbv zeta.
  replace (Z.of_nat i + 1 + 0 - Z.of_nat 0)%Z with (Z.of_nat i + 1 + 0)%Z by lia.
  by rewrite Z.sub_diag.
Qed.

Lemma rolling_quantile_zero q (s : series) :
  rolling_quantile 0 q s = replicate (length s) NaN.
Proof.
  unfold rolling_quantile, rolling_apply.
  rewrite (const_fmap _ (seq 0 (length s)) NaN); [by rewrite length_seq|].
  intros j i _. cbv beta zeta. by rewrite window_at_zero.
Qed.

Lemma col_zero a xs :
  col_q25 0 xs = replicate (length xs) NaN
  ∧ col_q75 0 xs = replicate (length xs) NaN
  ∧ col_iqr 0 xs = replicate (length xs) NaN
  ∧ col_up_raw a 0 xs = replicate (length xs) NaN
  ∧ col_low_raw a 0 xs = replicate (length xs) NaN.
Proof.
  assert (col_q25 0 xs = replicate (length xs) NaN) as H25.
  { unfold col_q25. by rewrite rolling_quantile_zero, length_shift1. }
  assert (col_q75 0 xs = replicate (length xs) NaN) as H75.
  { unfold col_q75. by rewrite rolling_quantile_zero, length_shift1. }
  assert (col_iqr 0 xs = replicate (length xs) NaN) as Hiqr.
  { unfold col_iqr, series_sub. by rewrite H25, H75, zip_with_replicate. }
  repeat split; try done.
  - unfold col_up_raw, series_add, series_scale.
    by rewrite H75, Hiqr, fmap_replicate, zip_with_replicate.
  - unfold col_low_raw, series_sub, series_scale.
    by rewrite H25, Hiqr, fmap_replicate, zip_with_replicate.
Qed.

(** X18.  A window of 0 is refused by the smoothing, not by the
    quartiles.  [check_anomaly] with [n = 0] raises [ValueError] on every
    series, the empty one included, and returns no verdict; by then it
    has assigned [q25], [q75], [iqr], [up] and [low] on the frame, all
    NaN, and the metric column is as it was. *)
Theorem zero_window_raises_value_error h t r df metric xs a key :
  h !! r = Some df →
  columns df !! metric = Some (Num xs) →
  metric ∉ derived_columns →
  key ∈ derived_columns →
  (check_anomaly r metric a 0 (mkWorld h t)).1 = Raise ValueError
  ∧ trace (check_anomaly r metric a 0 (mkWorld h t)).2 = t
  ∧ column_of (check_anomaly r metric a 0 (mkWorld h t)).2 r metric = Some xs
  ∧ column_of (check_anomaly r metric a 0 (mkWorld h t)).2 r key
    = Some (replicate (length xs) NaN).
Proof.
  intros Hr Hm Hd Hk.
  rewrite (check_anomaly_run_zero h t r df metric a xs) by done. cbn [fst snd trace].
  split; [done|]. split; [done|]. split.
  { apply column_of_insert. by rewrite annotated_raw_other. }
  destruct (col_zero a xs) as (H25 & H75 & Hiqr & Hup & Hlow).
  unfold derived_columns in Hk.
  repeat (apply elem_of_cons in Hk as [->|Hk]).
  - rewrite <- H25. apply column_of_insert, annotated_raw_q25.
  - rewrite <- H75. apply column_of_insert, annotated_raw_q75.
  - rewrite <- Hiqr. apply column_of_insert, annotated_raw_iqr.
  - rewrite <- Hup. apply column_of_insert, annotated_raw_up.
  - rewrite <- Hlow. apply column_of_insert, annotated_raw_low.
  - by apply elem_of_nil in Hk.
Qed.

Lemma zero_window_raises_value_error_witness :
  (check_anomaly 1%positive "views" 3 0 (mkWorld sample_heap [])).1 = Raise ValueError
  ∧ trace (check_anomaly 1%positive "views" 3 0 (mkWorld sample_heap [])).2 = []
  ∧ column_of (check_anomaly 1%positive "views" 3 0 (mkWorld sample_heap [])).2
      1%positive "views" = Some scenario
  ∧ column_of (check_anomaly 1%positive "views" 3 0 (mkWorld sample_heap [])).2
      1%positive "up" = Some (replicate (length scenario) NaN).
Proof.
  apply (zero_window_raises_value_error sample_heap [] 1%positive sample_frame "views"
           scenario 3 "up").
  - vm_compute; reflexivity.
  - vm_compute; reflexivity.
  - compute_done.
  - compute_done.
Defined.
